(** * vger: per-frame draw-command accumulator (Sources/vger/vger_private.h)

    A shallow embedding of the state object [vger], of its bump-pointer
    arenas ([addCV], [addxform], [addPaint]), of the text layout cache key
    ([TextLayoutKey], its [operator==] and [std::hash] generated by
    [MAKE_HASHABLE]) and of [makeLinearGradient].

    Numbers are modelled the way the header declares them:
    - [float] is IEEE-754 binary32, as [spec_float] with [prec = 24] and
      [emax = 128];
    - [int], [uint16_t], [uint64_t] and [size_t] are [Z] with the wrap-around
      of the unsigned types written out;
    - a pointer into a scene buffer is a cursor (scene, offset), and the
      memory of the scene buffers is a finite map from cursors;
    - the text cache is the list of its entries, looked up with the key's
      [operator==].

    The header only declares [renderCachedText], [renderText] and [encode];
    their bodies, and the rotation of the scene buffers, live in vger.mm.
    Those are modelled from the specification and marked as such. *)

From Stdlib Require Import ZArith QArith Qpower Lia Lqa Bool.
From Stdlib Require Import Strings.String.
From Stdlib Require Import Floats.SpecFloat.
From stdpp Require Import base tactics option list gmap.

Local Open Scope Z_scope.

(* ===================================================================== *)
(** * Machine integers *)
(* ===================================================================== *)

Definition wrap16 (z : Z) : Z := z mod 2 ^ 16.
Definition wrap64 (z : Z) : Z := z mod 2 ^ 64.

(** For a 16-bit counter that started at [c]: the index returned by the
    call that has [n] calls before it. *)
Definition nth_index (c : Z) (n : nat) : Z := wrap16 (c + Z.of_nat n).

Definition is_uint16 (z : Z) : Prop := 0 <= z < 2 ^ 16.
Definition is_uint64 (z : Z) : Prop := 0 <= z < 2 ^ 64.
Definition is_int (z : Z) : Prop := - 2 ^ 31 <= z < 2 ^ 31.

(* ===================================================================== *)
(** * binary32 floats *)
(* ===================================================================== *)

Definition float : Type := spec_float.

Definition float_prec : Z := 24.
Definition float_emax : Z := 128.

(** A [spec_float] that is the image of a binary32 bit pattern. *)
Definition is_float (f : float) : Prop :=
  valid_binary float_prec float_emax f = true.

(** [a == b] on [float]. *)
Definition float_eqb (a b : float) : bool := SFeqb a b.
(** [a < b] on [float]. *)
Definition float_ltb (a b : float) : bool := SFltb a b.

Definition float_sub (a b : float) : float := SFsub float_prec float_emax a b.
Definition float_add (a b : float) : float := SFadd float_prec float_emax a b.
Definition float_mul (a b : float) : float := SFmul float_prec float_emax a b.
Definition float_sqrt (a : float) : float := SFsqrt float_prec float_emax a.
Definition float_neg (a : float) : float := SFopp a.

(** The literals of the header. *)
Definition float_0 : float := S754_zero false.
Definition float_1 : float := S754_finite false 8388608 (-23).
Definition float_m1 : float := S754_finite true 8388608 (-23).
(** [100.0f] *)
Definition float_100 : float := S754_finite false 13107200 (-17).
(** [0.0001f], bit pattern 0x38D1B717. *)
Definition float_1em4 : float := S754_finite false 13743895 (-37).
(** [FLT_MAX], bit pattern 0x7F7FFFFF. *)
Definition float_max : float := S754_finite false 16777215 104.

Definition is_nan (f : float) : bool :=
  match f with S754_nan => true | _ => false end.

Definition is_zero (f : float) : bool :=
  match f with S754_zero _ => true | _ => false end.

(** Neither infinite nor NaN. *)
Definition is_finite (f : float) : bool :=
  match f with S754_zero _ | S754_finite _ _ _ => true | _ => false end.

(** What IEEE equality relates: two non-NaN floats that are the same datum,
    or two zeros of any sign. *)
Definition float_same (a b : float) : Prop :=
  is_nan a = false /\ is_nan b = false /\
  (a = b \/ (is_zero a = true /\ is_zero b = true)).

(* ===================================================================== *)
(** * TextLayoutKey and MAKE_HASHABLE *)
(* ===================================================================== *)

Record TextLayoutKey : Type := mkTextLayoutKey {
  str : string;
  size : float;
  align : Z;
  breakRowWidth : float
}.

(** The default member initializer [breakRowWidth = -1]. *)
Definition TextLayoutKey_default (s : string) (sz : float) (al : Z)
  : TextLayoutKey :=
  mkTextLayoutKey s sz al float_m1.

(** [__tie(t)]: [std::tie(t.str, t.size, t.align, t.breakRowWidth)]. *)
Definition TextLayoutKey_tie (t : TextLayoutKey)
  : string * float * Z * float :=
  (str t, size t, align t, breakRowWidth t).

(** [operator==] on the tuple: element by element, left to right. *)
Definition tuple_eqb (l r : string * float * Z * float) : bool :=
  let '(s1, f1, i1, w1) := l in
  let '(s2, f2, i2, w2) := r in
  String.eqb s1 s2 && float_eqb f1 f2 && Z.eqb i1 i2 && float_eqb w1 w2.

(** [operator==(const TextLayoutKey&, const TextLayoutKey&)]. *)
Definition TextLayoutKey_eqb (lhs rhs : TextLayoutKey) : bool :=
  tuple_eqb (TextLayoutKey_tie lhs) (TextLayoutKey_tie rhs).

(** [operator!=]: the tuple's [!=], the negation of its [==]. *)
Definition TextLayoutKey_neqb (lhs rhs : TextLayoutKey) : bool :=
  negb (tuple_eqb (TextLayoutKey_tie lhs) (TextLayoutKey_tie rhs)).

(** One step of [hash_combine(seed, v, rest...)], given [std::hash<T>()(v)]:
    [seed ^= hasher(v) + 0x9e3779b9 + (seed<<6) + (seed>>2)] on [size_t]. *)
Definition hash_combine_step (seed h : Z) : Z :=
  Z.lxor seed
    (wrap64 (h + 0x9e3779b9 + wrap64 (Z.shiftl seed 6) + Z.shiftr seed 2)).

(** [hash_combine(seed, v1, ..., vn)] over the hashes of the arguments; the
    empty pack leaves the seed as it is. *)
Fixpoint hash_combine (seed : Z) (hs : list Z) : Z :=
  match hs with
  | [] => seed
  | h :: rest => hash_combine (hash_combine_step seed h) rest
  end.

Section Hash.
(** [std::hash<std::string>], [std::hash<float>] and [std::hash<int>] of
    the C++ standard library. *)
Variable hash_string : string -> Z.
Variable hash_float : float -> Z.
Variable hash_int : Z -> Z.

(** [std::hash<TextLayoutKey>::operator()]. *)
Definition TextLayoutKey_hash (t : TextLayoutKey) : Z :=
  let ret := 0 in
  hash_combine ret
    [hash_string (str t); hash_float (size t);
     hash_int (align t); hash_float (breakRowWidth t)].
End Hash.

(* ===================================================================== *)
(** * simd vectors and matrices, paints *)
(* ===================================================================== *)

Module simd.
Record float2 : Type := mk_float2 { x : float; y : float }.
Record float3 : Type := mk_float3 {
  xyz_x : float; xyz_y : float; xyz_z : float }.
Record float4 : Type := mk_float4 {
  rgba_r : float; rgba_g : float; rgba_b : float; rgba_a : float }.
(** [float3x3{c0, c1, c2}]: three columns. *)
Record float3x3 : Type := mk_float3x3 {
  col0 : float3; col1 : float3; col2 : float3 }.

(** [end - start] on [float2]: component by component. *)
Definition sub (a b : float2) : float2 :=
  mk_float2 (float_sub (x a) (x b)) (float_sub (y a) (y b)).

(** Modelled from the spec: [length] comes from the simd library and is
    not under src/; it is the Euclidean norm [|v|], here
    [sqrt(v.x * v.x + v.y * v.y)] evaluated in binary32. *)
Definition length (v : float2) : float :=
  float_sqrt (float_add (float_mul (x v) (x v)) (float_mul (y v) (y v))).
End simd.

Abbreviation float2 := simd.float2.
Abbreviation float3 := simd.float3.
Abbreviation float4 := simd.float4.
Abbreviation float3x3 := simd.float3x3.

(** Modelled from the spec: [vgerPaint] is declared in vger.h, which is not
    under src/; these are the fields [makeLinearGradient] assigns. *)
Record vgerPaint : Type := mk_vgerPaint {
  paint_xform : float3x3;
  innerColor : float4;
  outerColor : float4;
  image : Z
}.

(* ===================================================================== *)
(** * makeLinearGradient *)
(* ===================================================================== *)

(** The direction [d] after the guard on its length. *)
Definition makeLinearGradient_dir (start end_ : float2) : float2 :=
  let d := simd.sub end_ start in
  if float_ltb (simd.length d) float_1em4
  then simd.mk_float2 float_0 float_1
  else d.

(** The matrix handed to [inverse]. *)
Definition makeLinearGradient_frame (start end_ : float2) : float3x3 :=
  let d := makeLinearGradient_dir start end_ in
  simd.mk_float3x3
    (simd.mk_float3 (simd.x d) (simd.y d) float_0)
    (simd.mk_float3 (float_neg (simd.y d)) (simd.x d) float_0)
    (simd.mk_float3 (simd.x start) (simd.y start) float_1).

Section Gradient.
(** [inverse] of the simd library. *)
Variable inverse : float3x3 -> float3x3.

Definition makeLinearGradient (start end_ : float2)
    (innerColor_ outerColor_ : float4) : vgerPaint :=
  {| paint_xform := inverse (makeLinearGradient_frame start end_);
     innerColor := innerColor_;
     outerColor := outerColor_;
     image := -1 |}.
End Gradient.

(** ** The real value of a finite float, and determinants *)

Definition float_to_Q (f : float) : option Q :=
  match f with
  | S754_zero _ => Some 0%Q
  | S754_finite s m e =>
      Some ((if s then - inject_Z (Z.pos m) else inject_Z (Z.pos m))
            * Qpower 2 e)%Q
  | _ => None
  end.

Definition float3_to_Q (v : float3) : option (Q * Q * Q) :=
  a ← float_to_Q (simd.xyz_x v);
  b ← float_to_Q (simd.xyz_y v);
  c ← float_to_Q (simd.xyz_z v);
  Some (a, b, c).

(** Determinant of the matrix with the given columns. *)
Definition det3 (c0 c1 c2 : Q * Q * Q) : Q :=
  let '(a, b, c) := c0 in
  let '(d, e, f) := c1 in
  let '(g, h, i) := c2 in
  (a * (e * i - f * h) - d * (b * i - c * h) + g * (b * f - c * e))%Q.

Definition determinant (M : float3x3) : option Q :=
  c0 ← float3_to_Q (simd.col0 M);
  c1 ← float3_to_Q (simd.col1 M);
  c2 ← float3_to_Q (simd.col2 M);
  Some (det3 c0 c1 c2).

(** A matrix of real numbers with a non-zero determinant. *)
Definition nonsingular (M : float3x3) : Prop :=
  exists q, determinant M = Some q /\ ~ (q == 0)%Q.

(* ===================================================================== *)
(** * The state object [vger] *)
(* ===================================================================== *)

(** A pointer into one of the scene buffers: the scene it points into and the
    offset, in elements, from the start of that scene's arena. *)
Definition cursor : Type := Z * Z.

(** [ptr++] *)
Definition cursor_next (p : cursor) : cursor := (p.1, p.2 + 1).

(** [ptr + n] *)
Definition cursor_add (p : cursor) (n : Z) : cursor := (p.1, p.2 + n).

(** The memory after the values [vs] are written at [p], [p + 1], ... *)
Fixpoint store_seq {T : Type} (p : cursor) (vs : list T)
    (m : gmap cursor T) : gmap cursor T :=
  match vs with
  | [] => m
  | v :: rest => store_seq (cursor_next p) rest (<[p := v]> m)
  end.

(** The indices a run of [len] calls returns when only the first [room]
    of them find space: the counter values from [c] on, then the
    sentinel 0. *)
Definition bounded_indices (c : Z) (room len : nat) : list Z :=
  map (fun n => if (n <? room)%nat then c + Z.of_nat n else 0) (seq 0 len).

(** [vgerScene scenes[3]] *)
Definition scenes_len : Z := 3.

Section Vger.
(** The fields of a [vgerPrim] other than its paint and transform
    handles. *)
Variable Geom : Type.

(** Modelled from the spec: [vgerPrim] is declared in a header that is not
    under src/. A Primitive is a fixed-size record that references a paint
    and a transform by 16-bit index. *)
Record vgerPrim : Type := mk_vgerPrim {
  prim_geom : Geom;
  prim_paint : Z;
  prim_xform : Z
}.

(** Modelled from the spec: [vgerScene] is declared in vgerScene.h, which
    is not under src/. A Scene Buffer is one set of four arenas; the
    memory of the three scenes is kept here per arena, addressed by
    cursor. *)
Record vgerScenes : Type := mk_vgerScenes {
  scene_prims : gmap cursor vgerPrim;
  scene_cvs : gmap cursor float2;
  scene_xforms : gmap cursor float3x3;
  scene_paints : gmap cursor vgerPaint
}.

Record TextLayoutInfo : Type := mk_TextLayoutInfo {
  lastFrame : Z;
  prims : list vgerPrim
}.

(** [std::unordered_map<TextLayoutKey, TextLayoutInfo>]: the entries, in
    some order; keys are compared with [operator==]. *)
Definition TextCache : Type := list (TextLayoutKey * TextLayoutInfo).

(** The fields of [struct vger] that the functions below read or write;
    the device, renderer, glyph and texture members, the transform stack
    and the scratch vectors are left out. *)
Record vger : Type := mk_vger {
  scenes : vgerScenes;
  curBuffer : Z;
  primPtr : cursor;
  primCount : Z;
  maxPrims : Z;
  cvPtr : cursor;
  cvCount : Z;
  maxCvs : Z;
  xformCount : Z;
  xformPtr : cursor;
  paintCount : Z;
  paintPtr : cursor;
  textCache : TextCache;
  currentFrame : Z
}.

Definition scenes_empty : vgerScenes :=
  mk_vgerScenes ∅ ∅ ∅ ∅.

(** The default member initializers of [struct vger]; the pointers, which
    have none, start at scene 0. *)
Definition vger_init : vger :=
  {| scenes := scenes_empty;
     curBuffer := 0;
     primPtr := (0, 0);
     primCount := 0;
     maxPrims := 65536;
     cvPtr := (0, 0);
     cvCount := 0;
     maxCvs := 1024 * 1024;
     xformCount := 0;
     xformPtr := (0, 0);
     paintCount := 0;
     paintPtr := (0, 0);
     textCache := [];
     currentFrame := 1 |}.

(** The ranges of the declared types. *)
Record vger_wf (s : vger) : Prop := mk_vger_wf {
  wf_curBuffer : is_int (curBuffer s);
  wf_primCount : is_int (primCount s);
  wf_maxPrims : is_int (maxPrims s);
  wf_cvCount : is_int (cvCount s);
  wf_maxCvs : is_int (maxCvs s);
  wf_xformCount : is_uint16 (xformCount s);
  wf_paintCount : is_uint16 (paintCount s);
  wf_currentFrame : is_uint64 (currentFrame s)
}.

(** ** Writes through the arena pointers *)

Definition store_prim (p : cursor) (v : vgerPrim) (m : vgerScenes) :=
  mk_vgerScenes (<[p := v]> (scene_prims m)) (scene_cvs m)
                (scene_xforms m) (scene_paints m).
Definition store_cv (p : cursor) (v : float2) (m : vgerScenes) :=
  mk_vgerScenes (scene_prims m) (<[p := v]> (scene_cvs m))
                (scene_xforms m) (scene_paints m).
Definition store_xform (p : cursor) (v : float3x3) (m : vgerScenes) :=
  mk_vgerScenes (scene_prims m) (scene_cvs m)
                (<[p := v]> (scene_xforms m)) (scene_paints m).
Definition store_paint (p : cursor) (v : vgerPaint) (m : vgerScenes) :=
  mk_vgerScenes (scene_prims m) (scene_cvs m)
                (scene_xforms m) (<[p := v]> (scene_paints m)).

(** ** addCV, addxform, addPaint *)

Definition addCV (p : float2) (s : vger) : vger :=
  if cvCount s <? maxCvs s then
    {| scenes := store_cv (cvPtr s) p (scenes s);
       curBuffer := curBuffer s;
       primPtr := primPtr s;
       primCount := primCount s;
       maxPrims := maxPrims s;
       cvPtr := cursor_next (cvPtr s);
       cvCount := cvCount s + 1;
       maxCvs := maxCvs s;
       xformCount := xformCount s;
       xformPtr := xformPtr s;
       paintCount := paintCount s;
       paintPtr := paintPtr s;
       textCache := textCache s;
       currentFrame := currentFrame s |}
  else s.

(** The [uint16_t] counter is promoted to [int] for the comparison with
    [maxPrims]; [xformCount++] yields the old value and wraps. *)
Definition addxform (M : float3x3) (s : vger) : Z * vger :=
  if xformCount s <? maxPrims s then
    (xformCount s,
     {| scenes := store_xform (xformPtr s) M (scenes s);
        curBuffer := curBuffer s;
        primPtr := primPtr s;
        primCount := primCount s;
        maxPrims := maxPrims s;
        cvPtr := cvPtr s;
        cvCount := cvCount s;
        maxCvs := maxCvs s;
        xformCount := wrap16 (xformCount s + 1);
        xformPtr := cursor_next (xformPtr s);
        paintCount := paintCount s;
        paintPtr := paintPtr s;
        textCache := textCache s;
        currentFrame := currentFrame s |})
  else (0, s).

Definition addPaint (paint : vgerPaint) (s : vger) : Z * vger :=
  if paintCount s <? maxPrims s then
    (paintCount s,
     {| scenes := store_paint (paintPtr s) paint (scenes s);
        curBuffer := curBuffer s;
        primPtr := primPtr s;
        primCount := primCount s;
        maxPrims := maxPrims s;
        cvPtr := cvPtr s;
        cvCount := cvCount s;
        maxCvs := maxCvs s;
        xformCount := xformCount s;
        xformPtr := xformPtr s;
        paintCount := wrap16 (paintCount s + 1);
        paintPtr := cursor_next (paintPtr s);
        textCache := textCache s;
        currentFrame := currentFrame s |})
  else (0, s).

(** A sequence of calls, the returned indices collected in call order. *)
Fixpoint addCVs (ps : list float2) (s : vger) : vger :=
  match ps with
  | [] => s
  | p :: rest => addCVs rest (addCV p s)
  end.

Fixpoint addxforms (Ms : list float3x3) (s : vger) : list Z * vger :=
  match Ms with
  | [] => ([], s)
  | M :: rest =>
      let '(i, s1) := addxform M s in
      let '(ixs, s2) := addxforms rest s1 in
      (i :: ixs, s2)
  end.

Fixpoint addPaints (ps : list vgerPaint) (s : vger) : list Z * vger :=
  match ps with
  | [] => ([], s)
  | p :: rest =>
      let '(i, s1) := addPaint p s in
      let '(ixs, s2) := addPaints rest s1 in
      (i :: ixs, s2)
  end.

(** ** The primitive arena and the text layout cache

    The bodies of [renderCachedText], [renderText], [encode] and of the
    frame rotation are in vger.mm, which is not under src/; the header
    declares them and documents [lastFrame] and [currentFrame]. *)

(** Modelled from the spec: the primitive arena's [add], which the header
    does not define (section 4.1: append at the cursor if capacity remains,
    else no write); it has the shape of [addCV]. *)
Definition addPrim (v : vgerPrim) (s : vger) : vger :=
  if primCount s <? maxPrims s then
    {| scenes := store_prim (primPtr s) v (scenes s);
       curBuffer := curBuffer s;
       primPtr := cursor_next (primPtr s);
       primCount := primCount s + 1;
       maxPrims := maxPrims s;
       cvPtr := cvPtr s;
       cvCount := cvCount s;
       maxCvs := maxCvs s;
       xformCount := xformCount s;
       xformPtr := xformPtr s;
       paintCount := paintCount s;
       paintPtr := paintPtr s;
       textCache := textCache s;
       currentFrame := currentFrame s |}
  else s.

(** How many of the primitives [vs] the arena still has room for. *)
Definition prims_room (s : vger) (vs : list vgerPrim) : nat :=
  Nat.min (length vs) (Z.to_nat (maxPrims s - primCount s)).

Fixpoint addPrims (vs : list vgerPrim) (s : vger) : vger :=
  match vs with
  | [] => s
  | v :: rest => addPrims rest (addPrim v s)
  end.

Definition set_textCache (c : TextCache) (s : vger) : vger :=
  {| scenes := scenes s;
     curBuffer := curBuffer s;
     primPtr := primPtr s;
     primCount := primCount s;
     maxPrims := maxPrims s;
     cvPtr := cvPtr s;
     cvCount := cvCount s;
     maxCvs := maxCvs s;
     xformCount := xformCount s;
     xformPtr := xformPtr s;
     paintCount := paintCount s;
     paintPtr := paintPtr s;
     textCache := c;
     currentFrame := currentFrame s |}.

Definition set_currentFrame (f : Z) (s : vger) : vger :=
  {| scenes := scenes s;
     curBuffer := curBuffer s;
     primPtr := primPtr s;
     primCount := primCount s;
     maxPrims := maxPrims s;
     cvPtr := cvPtr s;
     cvCount := cvCount s;
     maxCvs := maxCvs s;
     xformCount := xformCount s;
     xformPtr := xformPtr s;
     paintCount := paintCount s;
     paintPtr := paintPtr s;
     textCache := textCache s;
     currentFrame := f |}.

(** [textCache.find(key)]: the entry whose key [==] the given one. *)
Fixpoint cache_find (key : TextLayoutKey) (c : TextCache)
  : option TextLayoutInfo :=
  match c with
  | [] => None
  | (k, info) :: rest =>
      if TextLayoutKey_eqb k key then Some info else cache_find key rest
  end.

(** [key] is in the cache: some entry's key [==] it. *)
Definition present (key : TextLayoutKey) (c : TextCache) : Prop :=
  exists k info, (k, info) ∈ c /\ TextLayoutKey_eqb k key = true.

(** Modelled from the spec: the stamping step of [renderCachedText]
    (vger.mm, not under src/; section 4.4): [lastFrame = frame] on the
    entry [find] returns. *)
Fixpoint cache_stamp (key : TextLayoutKey) (frame : Z) (c : TextCache)
  : TextCache :=
  match c with
  | [] => []
  | (k, info) :: rest =>
      if TextLayoutKey_eqb k key
      then (k, mk_TextLayoutInfo frame (prims info)) :: rest
      else (k, info) :: cache_stamp key frame rest
  end.

(** Modelled from the spec: the copying step of [renderCachedText]
    (section 4.4): a cached primitive with its paint and transform handles
    replaced by the caller's. *)
Definition rebind (paint xform : Z) (v : vgerPrim) : vgerPrim :=
  mk_vgerPrim (prim_geom v) paint xform.

(** Modelled from the spec: [renderCachedText] is declared in the header
    and defined in vger.mm (section 4.4: on a hit copy the cached prims
    into the current scene buffer with the caller's handles, stamp
    [lastFrame = currentFrame], return true; on a miss return false). *)
Definition renderCachedText (key : TextLayoutKey) (paint xform : Z)
    (s : vger) : bool * vger :=
  match cache_find key (textCache s) with
  | Some info =>
      (true,
       addPrims (map (rebind paint xform) (prims info))
         (set_textCache
            (cache_stamp key (currentFrame s) (textCache s)) s))
  | None => (false, s)
  end.

(** The text shaper and glyph path collaborators: the geometry of the
    primitives a key lays out to. *)
Variable shape : TextLayoutKey -> list Geom.

(** Modelled from the spec: [renderText]/[renderTextBox] are defined in
    vger.mm (section 4.4: on a miss shape the string, submit the resulting
    prims and insert them into the cache under [key] with
    [lastFrame = currentFrame]). *)
Definition renderText (key : TextLayoutKey) (paint xform : Z) (s : vger)
  : vger :=
  let '(found, s1) := renderCachedText key paint xform s in
  if found then s1
  else
    let ps := map (fun g => mk_vgerPrim g paint xform) (shape key) in
    let s2 := addPrims ps s1 in
    set_textCache
      ((key, mk_TextLayoutInfo (currentFrame s2) ps) :: textCache s2) s2.

(** Modelled from the spec: the prune pass of [encode], defined in vger.mm
    (section 4.4: every entry whose [lastFrame != currentFrame] is
    removed). *)
Definition prune (s : vger) : vger :=
  set_textCache
    (filter (fun e : TextLayoutKey * TextLayoutInfo =>
               lastFrame e.2 = currentFrame s) (textCache s)) s.

(** Modelled from the spec: [encode], defined in vger.mm: the prune pass,
    then [currentFrame] is incremented, once per encoded frame. *)
Definition encode (s : vger) : vger :=
  let s1 := prune s in
  set_currentFrame (wrap64 (currentFrame s1 + 1)) s1.

(** Modelled from the spec: [advance()], defined in vger.mm (section 4.2:
    increment the buffer index modulo N, then reset the four arenas of the
    newly current buffer: cursors and counts rewound, memory untouched). *)
Definition advance (s : vger) : vger :=
  let b := (curBuffer s + 1) mod scenes_len in
  {| scenes := scenes s;
     curBuffer := b;
     primPtr := (b, 0);
     primCount := 0;
     maxPrims := maxPrims s;
     cvPtr := (b, 0);
     cvCount := 0;
     maxCvs := maxCvs s;
     xformCount := 0;
     xformPtr := (b, 0);
     paintCount := 0;
     paintPtr := (b, 0);
     textCache := textCache s;
     currentFrame := currentFrame s |}.

(** One text draw call: the key and the paint and transform handles. *)
Definition draw : Type := TextLayoutKey * Z * Z.

Definition draw_key (d : draw) : TextLayoutKey := d.1.1.

Fixpoint renderTexts (ds : list draw) (s : vger) : vger :=
  match ds with
  | [] => s
  | (key, paint, xform) :: rest =>
      renderTexts rest (renderText key paint xform s)
  end.

(** Modelled from the spec: one frame (section 2, data flow): the draw
    calls, then at frame end the cache is pruned and the buffer index
    advances. *)
Definition frame (ds : list draw) (s : vger) : vger :=
  advance (encode (renderTexts ds s)).

Fixpoint frames (fs : list (list draw)) (s : vger) : vger :=
  match fs with
  | [] => s
  | ds :: rest => frames rest (frame ds s)
  end.

(** [key] is drawn by one of the calls: some call's key [==] it. *)
Definition rendered (key : TextLayoutKey) (ds : list draw) : bool :=
  existsb (fun d => TextLayoutKey_eqb (draw_key d) key) ds.

(** [textCache.find(key) != textCache.end()] *)
Definition cached (key : TextLayoutKey) (s : vger) : bool :=
  bool_decide (is_Some (cache_find key (textCache s))).

(** How many of the points [ps] the control-vertex arena has room for,
    and likewise for transforms and paints against [maxPrims]. *)
Definition cvs_room (s : vger) (ps : list float2) : nat :=
  Nat.min (length ps) (Z.to_nat (maxCvs s - cvCount s)).

Definition xforms_room (s : vger) (Ms : list float3x3) : nat :=
  Nat.min (length Ms) (Z.to_nat (maxPrims s - xformCount s)).

Definition paints_room (s : vger) (ps : list vgerPaint) : nat :=
  Nat.min (length ps) (Z.to_nat (maxPrims s - paintCount s)).

(** Some entry for [key] carries the stamp of the current frame. *)
Definition fresh_for (key : TextLayoutKey) (s : vger) : Prop :=
  exists k info,
    (k, info) ∈ textCache s /\ TextLayoutKey_eqb k key = true /\
    lastFrame info = currentFrame s.

(** No entry for [key] carries the stamp of the current frame. *)
Definition stale_for (key : TextLayoutKey) (s : vger) : Prop :=
  forall k info,
    (k, info) ∈ textCache s -> TextLayoutKey_eqb k key = true ->
    lastFrame info <> currentFrame s.
End Vger.

Arguments mk_vgerPrim {Geom}.
Arguments prim_geom {Geom}.
Arguments prim_paint {Geom}.
Arguments prim_xform {Geom}.
Arguments mk_vgerScenes {Geom}.
Arguments scene_prims {Geom}.
Arguments scene_cvs {Geom}.
Arguments scene_xforms {Geom}.
Arguments scene_paints {Geom}.
Arguments mk_TextLayoutInfo {Geom}.
Arguments lastFrame {Geom}.
Arguments prims {Geom}.
Arguments mk_vger {Geom}.
Arguments scenes {Geom}.
Arguments curBuffer {Geom}.
Arguments primPtr {Geom}.
Arguments primCount {Geom}.
Arguments maxPrims {Geom}.
Arguments cvPtr {Geom}.
Arguments cvCount {Geom}.
Arguments maxCvs {Geom}.
Arguments xformCount {Geom}.
Arguments xformPtr {Geom}.
Arguments paintCount {Geom}.
Arguments paintPtr {Geom}.
Arguments textCache {Geom}.
Arguments currentFrame {Geom}.
Arguments scenes_empty {Geom}.
Arguments vger_init {Geom}.
Arguments vger_wf {Geom}.
Arguments store_prim {Geom}.
Arguments store_cv {Geom}.
Arguments store_xform {Geom}.
Arguments store_paint {Geom}.
Arguments addCV {Geom}.
Arguments addxform {Geom}.
Arguments addPaint {Geom}.
Arguments addCVs {Geom}.
Arguments addxforms {Geom}.
Arguments addPaints {Geom}.
Arguments addPrim {Geom}.
Arguments addPrims {Geom}.
Arguments prims_room {Geom}.
Arguments set_textCache {Geom}.
Arguments set_currentFrame {Geom}.
Arguments cache_find {Geom}.
Arguments cache_stamp {Geom}.
Arguments present {Geom}.
Arguments rebind {Geom}.
Arguments renderCachedText {Geom}.
Arguments renderText {Geom}.
Arguments prune {Geom}.
Arguments encode {Geom}.
Arguments advance {Geom}.
Arguments renderTexts {Geom}.
Arguments frame {Geom}.
Arguments frames {Geom}.
Arguments cached {Geom}.
Arguments cvs_room {Geom}.
Arguments xforms_room {Geom}.
Arguments paints_room {Geom}.
Arguments fresh_for {Geom}.
Arguments stale_for {Geom}.

(* ===================================================================== *)
(** * Sample instances of the collaborators *)
(* ===================================================================== *)

(** A [std::hash<float>] in the manner of libc++ and libstdc++: both zeros
    hash to 0, any other value to a number read off its representation. *)
Definition hash_float_sample (f : float) : Z :=
  match f with
  | S754_zero _ => 0
  | S754_infinity false => 0x7f800000
  | S754_infinity true => 0xff800000
  | S754_nan => 0x7fc00000
  | S754_finite s m e =>
      wrap64 (Z.pos m + 2 ^ 24 * (e + 149) + (if s then 2 ^ 32 else 0))
  end.

(** A [std::hash<float>] that reads the sign bit of zero as well: it tells
    [+0] from [-0]. *)
Definition hash_float_bits (f : float) : Z :=
  match f with
  | S754_zero s => if s then 0x80000000 else 0
  | _ => hash_float_sample f
  end.

Definition hash_string_sample (s : string) : Z :=
  Z.of_nat (String.length s).

(** [std::hash<int>]: the value converted to [size_t]. *)
Definition hash_int_sample (i : Z) : Z := wrap64 i.

(** An [inverse] for 3x3 matrices in binary32: the adjugate over the
    determinant, by cross products of the columns. *)
Definition float_div (a b : float) : float := SFdiv float_prec float_emax a b.

Definition float3_cross (u v : float3) : float3 :=
  simd.mk_float3
    (float_sub (float_mul (simd.xyz_y u) (simd.xyz_z v))
               (float_mul (simd.xyz_z u) (simd.xyz_y v)))
    (float_sub (float_mul (simd.xyz_z u) (simd.xyz_x v))
               (float_mul (simd.xyz_x u) (simd.xyz_z v)))
    (float_sub (float_mul (simd.xyz_x u) (simd.xyz_y v))
               (float_mul (simd.xyz_y u) (simd.xyz_x v))).

Definition float3_dot (u v : float3) : float :=
  float_add
    (float_add (float_mul (simd.xyz_x u) (simd.xyz_x v))
               (float_mul (simd.xyz_y u) (simd.xyz_y v)))
    (float_mul (simd.xyz_z u) (simd.xyz_z v)).

Definition inverse_sample (M : float3x3) : float3x3 :=
  let r0 := float3_cross (simd.col1 M) (simd.col2 M) in
  let r1 := float3_cross (simd.col2 M) (simd.col0 M) in
  let r2 := float3_cross (simd.col0 M) (simd.col1 M) in
  let det := float3_dot (simd.col0 M) r0 in
  simd.mk_float3x3
    (simd.mk_float3 (float_div (simd.xyz_x r0) det)
                    (float_div (simd.xyz_x r1) det)
                    (float_div (simd.xyz_x r2) det))
    (simd.mk_float3 (float_div (simd.xyz_y r0) det)
                    (float_div (simd.xyz_y r1) det)
                    (float_div (simd.xyz_y r2) det))
    (simd.mk_float3 (float_div (simd.xyz_z r0) det)
                    (float_div (simd.xyz_z r1) det)
                    (float_div (simd.xyz_z r2) det)).

(** A text shaper that lays out one primitive per character. *)
Definition shape_sample (key : TextLayoutKey) : list nat :=
  seq 0 (String.length (str key)).

(* ===================================================================== *)
(** * Sample keys and states *)
(* ===================================================================== *)

Definition key_hello : TextLayoutKey :=
  TextLayoutKey_default "Hello" (S754_finite false 8388608 (-19)) 0.

Definition key_hello_wrap : TextLayoutKey :=
  mkTextLayoutKey "Hello" (S754_finite false 8388608 (-19)) 0 float_100.

(** A key whose [size] is NaN. *)
Definition key_nan : TextLayoutKey :=
  TextLayoutKey_default "Hello" S754_nan 0.

Definition key_pos0 : TextLayoutKey :=
  mkTextLayoutKey "Hello" float_1 0 (S754_zero false).

Definition key_neg0 : TextLayoutKey :=
  mkTextLayoutKey "Hello" float_1 0 (S754_zero true).

(** The initial state with other capacities. *)
Definition vger_with_caps (prim_cap cv_cap : Z) : vger nat :=
  {| scenes := scenes_empty;
     curBuffer := 0;
     primPtr := (0, 0);
     primCount := 0;
     maxPrims := prim_cap;
     cvPtr := (0, 0);
     cvCount := 0;
     maxCvs := cv_cap;
     xformCount := 0;
     xformPtr := (0, 0);
     paintCount := 0;
     paintPtr := (0, 0);
     textCache := [];
     currentFrame := 1 |}.

Definition point_sample : float2 := simd.mk_float2 float_1 float_0.

Definition xform_sample : float3x3 :=
  simd.mk_float3x3 (simd.mk_float3 float_1 float_0 float_0)
                   (simd.mk_float3 float_0 float_1 float_0)
                   (simd.mk_float3 float_0 float_0 float_1).

Definition color_sample : float4 :=
  simd.mk_float4 float_1 float_0 float_0 float_1.

Definition paint_sample : vgerPaint :=
  mk_vgerPaint xform_sample color_sample color_sample (-1).

(** A draw of "Hello", size 16, left aligned, no wrap. *)
Definition draw_hello : draw := (key_hello, 3, 4).

(** The initial state after one draw of "Hello". *)
Definition vger_hello : vger nat :=
  renderText shape_sample key_hello 3 4 vger_init.

(** One draw of "Hello" into a primitive arena of capacity 5: its five
    primitives fill the arena. *)
Definition vger_hello_full : vger nat :=
  renderText shape_sample key_hello 3 4 (vger_with_caps 5 2).

(** Draws of the key with a NaN size and of the keys with wrap width +0
    and -0. *)
Definition draw_nan : draw := (key_nan, 3, 4).
Definition draw_pos0 : draw := (key_pos0, 3, 4).
Definition draw_neg0 : draw := (key_neg0, 3, 4).

(** The initial state after one draw of the key with a NaN size. *)
Definition vger_nan : vger nat :=
  renderText shape_sample key_nan 3 4 vger_init.

(* --------------------------------------------------------------------- *)
(* Theorems                                                              *)
(* --------------------------------------------------------------------- *)

(* ===================================================================== *)
(** * Floats: what [==] relates *)
(* ===================================================================== *)

Lemma float_eqb_refl (a : float) : is_nan a = false -> float_eqb a a = true.
Proof.
  unfold float_eqb, SFeqb.
  destruct a as [s | s | | s m e]; simpl; try discriminate; intros _.
  - reflexivity.
  - destruct s; reflexivity.
  - change (PosDef.Pos.compare_cont Eq m m) with (Pos.compare m m).
    rewrite Z.compare_refl, Pos.compare_refl. destruct s; reflexivity.
Qed.

Lemma float_eqb_finite_inv sa ma ea sb mb eb :
  float_eqb (S754_finite sa ma ea) (S754_finite sb mb eb) = true ->
  sa = sb /\ ma = mb /\ ea = eb.
Proof.
  unfold float_eqb, SFeqb. simpl.
  change (PosDef.Pos.compare_cont Eq ma mb) with (Pos.compare ma mb).
  destruct (Z.compare_spec ea eb) as [He | He | He];
    destruct (Pos.compare_spec ma mb) as [Hm | Hm | Hm];
    destruct sa, sb; simpl; try discriminate; auto.
Qed.

Lemma float_eqb_same (a b : float) :
  float_eqb a b = true <-> float_same a b.
Proof.
  split.
  - destruct a as [sa | sa | | sa ma ea], b as [sb | sb | | sb mb eb];
      try (unfold float_eqb, SFeqb; simpl;
           repeat match goal with
                  | |- context [if ?c then _ else _] => destruct c
                  end;
           simpl; discriminate).
    + intros _. repeat split. right. split; reflexivity.
    + unfold float_eqb, SFeqb. destruct sa, sb; simpl; try discriminate;
        intros _; repeat split; left; reflexivity.
    + intros H. apply float_eqb_finite_inv in H as (-> & -> & ->).
      repeat split. left. reflexivity.
  - intros (Ha & Hb & [-> | [Hza Hzb]]).
    + apply float_eqb_refl. exact Hb.
    + destruct a, b; try discriminate. reflexivity.
Qed.

Lemma float_eqb_sym (a b : float) : float_eqb a b = float_eqb b a.
Proof.
  destruct (float_eqb a b) eqn:Hab, (float_eqb b a) eqn:Hba; try reflexivity.
  - apply float_eqb_same in Hab as (? & ? & [-> | [? ?]]).
    + rewrite float_eqb_refl in Hba by assumption. discriminate.
    + destruct a, b; discriminate.
  - apply float_eqb_same in Hba as (? & ? & [-> | [? ?]]).
    + rewrite float_eqb_refl in Hab by assumption. discriminate.
    + destruct a, b; discriminate.
Qed.

Lemma float_eqb_trans_l (a b c : float) :
  float_eqb a b = true -> float_eqb a c = float_eqb b c.
Proof.
  intros Hab. apply float_eqb_same in Hab as (Ha & Hb & [-> | [Hza Hzb]]).
  - reflexivity.
  - destruct a, b; try discriminate. destruct c; reflexivity.
Qed.

(* ===================================================================== *)
(** * TextLayoutKey: equality and hash *)
(* ===================================================================== *)

Lemma TextLayoutKey_eqb_fields (a b : TextLayoutKey) :
  TextLayoutKey_eqb a b = true <->
  str a = str b /\ float_eqb (size a) (size b) = true /\
  align a = align b /\
  float_eqb (breakRowWidth a) (breakRowWidth b) = true.
Proof.
  unfold TextLayoutKey_eqb, TextLayoutKey_tie, tuple_eqb.
  rewrite !andb_true_iff, String.eqb_eq, Z.eqb_eq. tauto.
Qed.

Lemma TextLayoutKey_eqb_sym (a b : TextLayoutKey) :
  TextLayoutKey_eqb a b = TextLayoutKey_eqb b a.
Proof.
  unfold TextLayoutKey_eqb, TextLayoutKey_tie, tuple_eqb.
  rewrite (String.eqb_sym (str a)), (Z.eqb_sym (align a)).
  rewrite (float_eqb_sym (size a)), (float_eqb_sym (breakRowWidth a)).
  reflexivity.
Qed.

Lemma TextLayoutKey_eqb_trans_l (a b c : TextLayoutKey) :
  TextLayoutKey_eqb a b = true ->
  TextLayoutKey_eqb a c = TextLayoutKey_eqb b c.
Proof.
  intros (Hs & Hz & Ha & Hw)%TextLayoutKey_eqb_fields.
  unfold TextLayoutKey_eqb, TextLayoutKey_tie, tuple_eqb.
  rewrite Hs, Ha.
  rewrite (float_eqb_trans_l _ _ (size c) Hz).
  rewrite (float_eqb_trans_l _ _ (breakRowWidth c) Hw).
  reflexivity.
Qed.

Lemma TextLayoutKey_eqb_trans_r (a b c : TextLayoutKey) :
  TextLayoutKey_eqb a b = true ->
  TextLayoutKey_eqb c a = TextLayoutKey_eqb c b.
Proof.
  intros H. rewrite (TextLayoutKey_eqb_sym c a), (TextLayoutKey_eqb_sym c b).
  apply TextLayoutKey_eqb_trans_l, H.
Qed.

(** A key equals itself exactly when neither float field is NaN. *)
Lemma TextLayoutKey_eqb_refl_iff (a : TextLayoutKey) :
  TextLayoutKey_eqb a a = true <->
  is_nan (size a) = false /\ is_nan (breakRowWidth a) = false.
Proof.
  rewrite TextLayoutKey_eqb_fields, !float_eqb_same. unfold float_same.
  intuition.
Qed.

Section HashConsistency.
Variable hash_string : string -> Z.
Variable hash_float : float -> Z.
Variable hash_int : Z -> Z.

(** What the C++ standard library's [std::hash<float>] provides: values
    that compare equal hash alike (both zeros in particular). *)
Hypothesis hash_float_eq :
  forall a b, float_eqb a b = true -> hash_float a = hash_float b.

(** C9: keys that compare equal with [operator==] have equal
    [std::hash<TextLayoutKey>] values; equality and hash both run over
    the tuple (str, size, align, breakRowWidth), in that order. *)
Theorem TextLayoutKey_hash_consistent (a b : TextLayoutKey) :
  TextLayoutKey_eqb a b = true ->
  TextLayoutKey_hash hash_string hash_float hash_int a =
  TextLayoutKey_hash hash_string hash_float hash_int b.
Proof.
  intros (Hs & Hz & Ha & Hw)%TextLayoutKey_eqb_fields.
  unfold TextLayoutKey_hash.
  rewrite Hs, Ha, (hash_float_eq _ _ Hz), (hash_float_eq _ _ Hw).
  reflexivity.
Qed.
End HashConsistency.

Lemma hash_float_sample_eq (a b : float) :
  float_eqb a b = true -> hash_float_sample a = hash_float_sample b.
Proof.
  intros (_ & _ & [-> | [Ha Hb]])%float_eqb_same; [reflexivity |].
  destruct a, b; try discriminate. reflexivity.
Qed.

(** The keys [key_pos0] and [key_neg0] differ in the sign of a zero wrap
    width; they compare equal and hash alike. *)
Lemma TextLayoutKey_hash_consistent_witness :
  TextLayoutKey_eqb key_pos0 key_neg0 = true /\
  TextLayoutKey_hash hash_string_sample hash_float_sample hash_int_sample
    key_pos0 =
  TextLayoutKey_hash hash_string_sample hash_float_sample hash_int_sample
    key_neg0.
Proof.
  split; [reflexivity |].
  apply (TextLayoutKey_hash_consistent
           hash_string_sample hash_float_sample hash_int_sample
           hash_float_sample_eq key_pos0 key_neg0).
  reflexivity.
Defined.

(** The assumption on [std::hash<float>] is needed: a hash of the bit
    pattern separates the two keys although they compare equal. *)
Lemma TextLayoutKey_hash_bits_inconsistent :
  TextLayoutKey_eqb key_pos0 key_neg0 = true /\
  TextLayoutKey_hash hash_string_sample hash_float_bits hash_int_sample
    key_pos0 <>
  TextLayoutKey_hash hash_string_sample hash_float_bits hash_int_sample
    key_neg0.
Proof. split; [reflexivity | vm_compute; discriminate]. Qed.

(* ===================================================================== *)
(** * Cursors and arena memory *)
(* ===================================================================== *)

Lemma cursor_add_0 (p : cursor) : cursor_add p 0 = p.
Proof. destruct p as [b o]. unfold cursor_add. simpl. f_equal. lia. Qed.

Lemma cursor_add_next (p : cursor) (n : Z) :
  cursor_add (cursor_next p) n = cursor_add p (1 + n).
Proof. unfold cursor_add, cursor_next. simpl. f_equal. lia. Qed.

Lemma cursor_add_inj (p : cursor) (n m : Z) :
  cursor_add p n = cursor_add p m -> n = m.
Proof. unfold cursor_add. intros H. injection H. lia. Qed.

Lemma store_seq_outside {T : Type} (vs : list T) :
  forall (p q : cursor) (m : gmap cursor T),
  (forall i : nat, (i < length vs)%nat -> q <> cursor_add p (Z.of_nat i)) ->
  store_seq p vs m !! q = m !! q.
Proof.
  induction vs as [| v rest IH]; intros p q m Hq; simpl; [reflexivity |].
  rewrite IH.
  - apply lookup_insert_ne. intros ->.
    apply (Hq 0%nat); [simpl; lia |]. symmetry. apply cursor_add_0.
  - intros i Hi. rewrite cursor_add_next.
    replace (1 + Z.of_nat i) with (Z.of_nat (S i)) by lia.
    apply Hq. simpl. lia.
Qed.

Lemma store_seq_inside {T : Type} (vs : list T) :
  forall (p : cursor) (m : gmap cursor T) (i : nat) (v : T),
  vs !! i = Some v ->
  store_seq p vs m !! cursor_add p (Z.of_nat i) = Some v.
Proof.
  induction vs as [| v0 rest IH]; intros p m i v Hi; [discriminate |].
  destruct i as [| i]; simpl in *.
  - injection Hi as ->. rewrite cursor_add_0, store_seq_outside.
    + apply lookup_insert_eq.
    + intros j _. rewrite cursor_add_next. intros H.
      rewrite <- (cursor_add_0 p) in H at 1.
      apply cursor_add_inj in H. lia.
  - replace (Z.of_nat (S i)) with (1 + Z.of_nat i) by lia.
    rewrite <- cursor_add_next. apply IH, Hi.
Qed.

(* ===================================================================== *)
(** * The control-vertex arena: addCV *)
(* ===================================================================== *)

Section Arenas.
Variable Geom : Type.
Implicit Types s : vger Geom.

Lemma addCV_write s (p : float2) :
  cvCount s < maxCvs s ->
  addCV p s =
  {| scenes := store_cv (cvPtr s) p (scenes s);
     curBuffer := curBuffer s;
     primPtr := primPtr s;
     primCount := primCount s;
     maxPrims := maxPrims s;
     cvPtr := cursor_next (cvPtr s);
     cvCount := cvCount s + 1;
     maxCvs := maxCvs s;
     xformCount := xformCount s;
     xformPtr := xformPtr s;
     paintCount := paintCount s;
     paintPtr := paintPtr s;
     textCache := textCache s;
     currentFrame := currentFrame s |}.
Proof.
  intros H. unfold addCV.
  destruct (Z.ltb_spec (cvCount s) (maxCvs s)); [reflexivity | lia].
Qed.

Lemma addCV_full s (p : float2) :
  maxCvs s <= cvCount s -> addCV p s = s.
Proof.
  intros H. unfold addCV.
  destruct (Z.ltb_spec (cvCount s) (maxCvs s)); [lia | reflexivity].
Qed.

Lemma addCV_maxCvs s (p : float2) : maxCvs (addCV p s) = maxCvs s.
Proof. unfold addCV. destruct (_ <? _); reflexivity. Qed.

Lemma addCV_le s (p : float2) :
  cvCount s <= maxCvs s -> cvCount (addCV p s) <= maxCvs s.
Proof.
  intros H. unfold addCV.
  destruct (Z.ltb_spec (cvCount s) (maxCvs s)); simpl; lia.
Qed.

Lemma addCVs_le (ps : list float2) :
  forall s, cvCount s <= maxCvs s ->
  maxCvs (addCVs ps s) = maxCvs s /\ cvCount (addCVs ps s) <= maxCvs s.
Proof.
  induction ps as [| p rest IH]; intros s H; simpl;
    [split; [reflexivity | lia] |].
  destruct (IH (addCV p s)) as [Hm Hc].
  - rewrite addCV_maxCvs. apply addCV_le, H.
  - rewrite addCV_maxCvs in Hm, Hc. split; assumption.
Qed.

(** The increment of the [int] counter stays in range: no signed
    overflow can occur under the guard. *)
Lemma addCV_wf s (p : float2) : vger_wf s -> vger_wf (addCV p s).
Proof.
  intros [? ? ? Hc Hm ? ? ?]. unfold addCV.
  destruct (Z.ltb_spec (cvCount s) (maxCvs s)); [| constructor; assumption].
  constructor; simpl; try assumption. unfold is_int in *. lia.
Qed.

(** C5: a call to [addCV] below capacity writes [p] at the cursor,
    advances the cursor and adds one to [cvCount]; a call at capacity
    leaves the whole state, and so every written entry, as it was; over
    any sequence of calls [cvCount] stays at most [maxCvs]. *)
Theorem addCV_within_capacity s (p : float2) :
  (cvCount s < maxCvs s ->
     scene_cvs (scenes (addCV p s)) = <[cvPtr s := p]> (scene_cvs (scenes s)) /\
     scene_cvs (scenes (addCV p s)) !! cvPtr s = Some p /\
     (forall q, q <> cvPtr s ->
        scene_cvs (scenes (addCV p s)) !! q = scene_cvs (scenes s) !! q) /\
     cvPtr (addCV p s) = cursor_next (cvPtr s) /\
     cvCount (addCV p s) = cvCount s + 1) /\
  (maxCvs s <= cvCount s -> addCV p s = s) /\
  (forall ps : list float2,
     cvCount s <= maxCvs s ->
     cvCount (addCVs ps s) <= maxCvs (addCVs ps s)).
Proof.
  split; [| split].
  - intros H. rewrite (addCV_write s p H). simpl.
    repeat split.
    + apply lookup_insert_eq.
    + intros q Hq. apply lookup_insert_ne. congruence.
  - apply addCV_full.
  - intros ps H. destruct (addCVs_le ps s H) as [-> Hc]. exact Hc.
Qed.
End Arenas.

Lemma addCV_within_capacity_witness :
  let s0 := vger_with_caps 4 2 in
  let s2 := addCVs [point_sample; point_sample] s0 in
  (cvCount s0 < maxCvs s0 /\ cvCount (addCV point_sample s0) = 1) /\
  (maxCvs s2 <= cvCount s2 /\ addCV point_sample s2 = s2) /\
  (cvCount s0 <= maxCvs s0 /\
   cvCount (addCVs [point_sample; point_sample; point_sample] s0) <= 2).
Proof.
  intros s0 s2.
  destruct (addCV_within_capacity nat s0 point_sample) as (Hw & _ & Hs).
  destruct (addCV_within_capacity nat s2 point_sample) as (_ & Hf & _).
  assert (H0 : cvCount s0 < maxCvs s0) by (vm_compute; reflexivity).
  assert (H2 : maxCvs s2 <= cvCount s2) by (vm_compute; discriminate).
  assert (H1 : cvCount s0 <= maxCvs s0) by (vm_compute; discriminate).
  split; [split; [exact H0 | apply (Hw H0)] |].
  split; [split; [exact H2 | apply (Hf H2)] |].
  split; [exact H1 | apply (Hs [point_sample; point_sample; point_sample] H1)].
Defined.

(* ===================================================================== *)
(** * The transform and paint arenas: addxform, addPaint *)
(* ===================================================================== *)

Lemma wrap16_small (z : Z) : is_uint16 z -> wrap16 z = z.
Proof. unfold is_uint16, wrap16. intros H. apply Z.mod_small. lia. Qed.

Lemma wrap16_range (z : Z) : is_uint16 (wrap16 z).
Proof. unfold is_uint16, wrap16. apply Z.mod_pos_bound. lia. Qed.

Lemma wrap16_add_l (a b : Z) : wrap16 (wrap16 a + b) = wrap16 (a + b).
Proof. unfold wrap16. apply Zplus_mod_idemp_l. Qed.

(** A 16-bit counter is below 65536 whatever its value. *)
Lemma uint16_lt_65536 (c : Z) : is_uint16 c -> (c <? 65536) = true.
Proof. unfold is_uint16. intros H. apply Z.ltb_lt. lia. Qed.

Section Handles.
Variable Geom : Type.
Implicit Types s : vger Geom.

Lemma addxform_write s (M : float3x3) :
  xformCount s < maxPrims s ->
  addxform M s =
  (xformCount s,
   {| scenes := store_xform (xformPtr s) M (scenes s);
      curBuffer := curBuffer s;
      primPtr := primPtr s;
      primCount := primCount s;
      maxPrims := maxPrims s;
      cvPtr := cvPtr s;
      cvCount := cvCount s;
      maxCvs := maxCvs s;
      xformCount := wrap16 (xformCount s + 1);
      xformPtr := cursor_next (xformPtr s);
      paintCount := paintCount s;
      paintPtr := paintPtr s;
      textCache := textCache s;
      currentFrame := currentFrame s |}).
Proof.
  intros H. unfold addxform.
  destruct (Z.ltb_spec (xformCount s) (maxPrims s)); [reflexivity | lia].
Qed.

Lemma addxform_full s (M : float3x3) :
  maxPrims s <= xformCount s -> addxform M s = (0, s).
Proof.
  intros H. unfold addxform.
  destruct (Z.ltb_spec (xformCount s) (maxPrims s)); [lia | reflexivity].
Qed.

Lemma addPaint_write s (paint : vgerPaint) :
  paintCount s < maxPrims s ->
  addPaint paint s =
  (paintCount s,
   {| scenes := store_paint (paintPtr s) paint (scenes s);
      curBuffer := curBuffer s;
      primPtr := primPtr s;
      primCount := primCount s;
      maxPrims := maxPrims s;
      cvPtr := cvPtr s;
      cvCount := cvCount s;
      maxCvs := maxCvs s;
      xformCount := xformCount s;
      xformPtr := xformPtr s;
      paintCount := wrap16 (paintCount s + 1);
      paintPtr := cursor_next (paintPtr s);
      textCache := textCache s;
      currentFrame := currentFrame s |}).
Proof.
  intros H. unfold addPaint.
  destruct (Z.ltb_spec (paintCount s) (maxPrims s)); [reflexivity | lia].
Qed.

Lemma addPaint_full s (paint : vgerPaint) :
  maxPrims s <= paintCount s -> addPaint paint s = (0, s).
Proof.
  intros H. unfold addPaint.
  destruct (Z.ltb_spec (paintCount s) (maxPrims s)); [lia | reflexivity].
Qed.

Lemma addxform_wf s (M : float3x3) : vger_wf s -> vger_wf (addxform M s).2.
Proof.
  intros [? ? ? ? ? ? ? ?]. unfold addxform.
  destruct (_ <? _); simpl; constructor; simpl; try assumption.
  apply wrap16_range.
Qed.

Lemma addPaint_wf s (paint : vgerPaint) :
  vger_wf s -> vger_wf (addPaint paint s).2.
Proof.
  intros [? ? ? ? ? ? ? ?]. unfold addPaint.
  destruct (_ <? _); simpl; constructor; simpl; try assumption.
  apply wrap16_range.
Qed.

(** With the default capacity every call writes: the closed form of a
    sequence of [addxform] calls. *)
Lemma addxforms_65536 (Ms : list float3x3) :
  forall s,
  maxPrims s = 65536 -> is_uint16 (xformCount s) ->
  let r := addxforms Ms s in
  r.1 = map (nth_index (xformCount s)) (seq 0 (length Ms)) /\
  maxPrims r.2 = 65536 /\
  xformCount r.2 = wrap16 (xformCount s + Z.of_nat (length Ms)) /\
  xformPtr r.2 = cursor_add (xformPtr s) (Z.of_nat (length Ms)) /\
  scene_xforms (scenes r.2) =
    store_seq (xformPtr s) Ms (scene_xforms (scenes s)).
Proof.
  induction Ms as [| M rest IH]; intros s Hmax Hc; simpl.
  - rewrite Z.add_0_r, (wrap16_small _ Hc), cursor_add_0. auto.
  - rewrite (addxform_write s M) by (unfold is_uint16 in Hc; lia).
    match goal with |- context [addxforms rest ?s1] =>
      specialize (IH s1 Hmax (wrap16_range _)); simpl in IH;
      destruct (addxforms rest s1) as [ixs s2] end.
    simpl in *. destruct IH as (-> & -> & -> & -> & ->).
    repeat split.
    + f_equal.
      * unfold nth_index. rewrite Z.add_0_r. symmetry.
        apply wrap16_small, Hc.
      * rewrite <- seq_shift, map_map. apply map_ext. intros n.
        unfold nth_index. rewrite wrap16_add_l. f_equal. lia.
    + rewrite wrap16_add_l. f_equal. lia.
    + rewrite cursor_add_next. f_equal. lia.
Qed.

Lemma addPaints_65536 (ps : list vgerPaint) :
  forall s,
  maxPrims s = 65536 -> is_uint16 (paintCount s) ->
  let r := addPaints ps s in
  r.1 = map (nth_index (paintCount s)) (seq 0 (length ps)) /\
  maxPrims r.2 = 65536 /\
  paintCount r.2 = wrap16 (paintCount s + Z.of_nat (length ps)) /\
  paintPtr r.2 = cursor_add (paintPtr s) (Z.of_nat (length ps)) /\
  scene_paints (scenes r.2) =
    store_seq (paintPtr s) ps (scene_paints (scenes s)).
Proof.
  induction ps as [| p rest IH]; intros s Hmax Hc; simpl.
  - rewrite Z.add_0_r, (wrap16_small _ Hc), cursor_add_0. auto.
  - rewrite (addPaint_write s p) by (unfold is_uint16 in Hc; lia).
    match goal with |- context [addPaints rest ?s1] =>
      specialize (IH s1 Hmax (wrap16_range _)); simpl in IH;
      destruct (addPaints rest s1) as [ixs s2] end.
    simpl in *. destruct IH as (-> & -> & -> & -> & ->).
    repeat split.
    + f_equal.
      * unfold nth_index. rewrite Z.add_0_r. symmetry.
        apply wrap16_small, Hc.
      * rewrite <- seq_shift, map_map. apply map_ext. intros n.
        unfold nth_index. rewrite wrap16_add_l. f_equal. lia.
    + rewrite wrap16_add_l. f_equal. lia.
    + rewrite cursor_add_next. f_equal. lia.
Qed.
End Handles.

Section HandleClaims.
Variable Geom : Type.
Implicit Types s : vger Geom.

(** C7: the default capacities are 65536 primitives and
    1024 * 1024 = 1048576 control vertices, and [addxform] and [addPaint]
    compare their counters with [maxPrims]: below it they write and
    advance, at or above it they return 0 and change nothing. *)
Theorem capacities_and_handle_bound s (M : float3x3) (paint : vgerPaint) :
  maxPrims (@vger_init Geom) = 65536 /\
  maxCvs (@vger_init Geom) = 1048576 /\
  maxCvs (@vger_init Geom) = 1024 * 1024 /\
  (xformCount s < maxPrims s ->
     (addxform M s).1 = xformCount s /\
     scene_xforms (scenes (addxform M s).2) !! xformPtr s = Some M /\
     xformPtr (addxform M s).2 = cursor_next (xformPtr s)) /\
  (maxPrims s <= xformCount s -> addxform M s = (0, s)) /\
  (paintCount s < maxPrims s ->
     (addPaint paint s).1 = paintCount s /\
     scene_paints (scenes (addPaint paint s).2) !! paintPtr s = Some paint /\
     paintPtr (addPaint paint s).2 = cursor_next (paintPtr s)) /\
  (maxPrims s <= paintCount s -> addPaint paint s = (0, s)).
Proof.
  split; [reflexivity |]. split; [reflexivity |]. split; [reflexivity |].
  split; [| split; [| split]].
  - intros H. rewrite addxform_write by assumption. simpl.
    repeat split. apply lookup_insert_eq.
  - apply addxform_full.
  - intros H. rewrite addPaint_write by assumption. simpl.
    repeat split. apply lookup_insert_eq.
  - apply addPaint_full.
Qed.

(** C8: with [maxPrims = 65536] the guards of [addxform] and [addPaint]
    hold for every value of the 16-bit counters, so every call writes at
    the cursor and advances it, and in a sequence of calls started with
    the counter at 0 the call with [n] calls before it returns
    [n mod 2^16]. *)
Theorem handle_guard_always_true s :
  maxPrims s = 65536 ->
  is_uint16 (xformCount s) ->
  is_uint16 (paintCount s) ->
  ((xformCount s <? maxPrims s) = true /\
   (paintCount s <? maxPrims s) = true) /\
  (forall M : float3x3,
     (addxform M s).1 = xformCount s /\
     scene_xforms (scenes (addxform M s).2) !! xformPtr s = Some M /\
     xformPtr (addxform M s).2 = cursor_next (xformPtr s)) /\
  (forall paint : vgerPaint,
     (addPaint paint s).1 = paintCount s /\
     scene_paints (scenes (addPaint paint s).2) !! paintPtr s = Some paint /\
     paintPtr (addPaint paint s).2 = cursor_next (paintPtr s)) /\
  (forall (Ms : list float3x3) (n : nat) (M : float3x3),
     Ms !! n = Some M ->
     scene_xforms (scenes (addxforms Ms s).2)
       !! cursor_add (xformPtr s) (Z.of_nat n) = Some M /\
     xformPtr (addxforms Ms s).2 =
       cursor_add (xformPtr s) (Z.of_nat (length Ms)) /\
     (xformCount s = 0 ->
      (addxforms Ms s).1 !! n = Some (Z.of_nat n mod 2 ^ 16))) /\
  (forall (ps : list vgerPaint) (n : nat) (paint : vgerPaint),
     ps !! n = Some paint ->
     scene_paints (scenes (addPaints ps s).2)
       !! cursor_add (paintPtr s) (Z.of_nat n) = Some paint /\
     paintPtr (addPaints ps s).2 =
       cursor_add (paintPtr s) (Z.of_nat (length ps)) /\
     (paintCount s = 0 ->
      (addPaints ps s).1 !! n = Some (Z.of_nat n mod 2 ^ 16))).
Proof.
  intros Hmax Hx Hp.
  assert (Hgx : xformCount s < maxPrims s) by (unfold is_uint16 in Hx; lia).
  assert (Hgp : paintCount s < maxPrims s) by (unfold is_uint16 in Hp; lia).
  split; [split; apply Z.ltb_lt; assumption |].
  split; [| split; [| split]].
  - intros M. rewrite addxform_write by assumption. simpl.
    repeat split. apply lookup_insert_eq.
  - intros paint. rewrite addPaint_write by assumption. simpl.
    repeat split. apply lookup_insert_eq.
  - intros Ms n M Hn.
    destruct (addxforms_65536 Geom Ms s Hmax Hx) as (Hi & _ & _ & Hptr & Hmem).
    rewrite Hmem, Hptr, Hi. repeat split.
    + apply store_seq_inside, Hn.
    + intros H0. rewrite list_lookup_fmap, lookup_seq_lt
        by (apply lookup_lt_Some in Hn; exact Hn).
      simpl. unfold nth_index, wrap16. rewrite H0. reflexivity.
  - intros ps n paint Hn.
    destruct (addPaints_65536 Geom ps s Hmax Hp) as (Hi & _ & _ & Hptr & Hmem).
    rewrite Hmem, Hptr, Hi. repeat split.
    + apply store_seq_inside, Hn.
    + intros H0. rewrite list_lookup_fmap, lookup_seq_lt
        by (apply lookup_lt_Some in Hn; exact Hn).
      simpl. unfold nth_index, wrap16. rewrite H0. reflexivity.
Qed.

(** C1, at the input where the code departs from it: from the initial
    state, 65537 calls of [addxform] (of [addPaint]) all write; the last
    one writes at offset 65536, one past an arena of [maxPrims] entries,
    returns index 0, and leaves the cursor at 65537, past the capacity. *)
Theorem handle_cursor_passes_capacity (M : float3x3) (paint : vgerPaint) :
  let calls := Z.to_nat 65537 in
  let rx := addxforms (replicate calls M) (@vger_init Geom) in
  let rp := addPaints (replicate calls paint) (@vger_init Geom) in
  (maxPrims rx.2 = 65536 /\
   xformPtr rx.2 = (0, 65537) /\
   (xformPtr rx.2).2 > maxPrims rx.2 /\
   scene_xforms (scenes rx.2) !! (0, 65536) = Some M /\
   rx.1 !! Z.to_nat 65536 = Some 0) /\
  (maxPrims rp.2 = 65536 /\
   paintPtr rp.2 = (0, 65537) /\
   (paintPtr rp.2).2 > maxPrims rp.2 /\
   scene_paints (scenes rp.2) !! (0, 65536) = Some paint /\
   rp.1 !! Z.to_nat 65536 = Some 0).
Proof.
  intros calls rx rp.
  assert (Hu : is_uint16 0) by (unfold is_uint16; lia).
  assert (Hn : forall T (v : T),
             replicate calls v !! Z.to_nat 65536 = Some v).
  { intros T v. apply lookup_replicate_2. unfold calls. lia. }
  assert (Hc : Z.of_nat calls = 65537) by (unfold calls; lia).
  assert (Hlast : nth_index 0 (Z.to_nat 65536) = 0).
  { unfold nth_index. rewrite Z2Nat.id by lia. reflexivity. }
  split.
  - destruct (addxforms_65536 Geom (replicate calls M) vger_init
                eq_refl Hu) as (Hi & Hm & _ & Hptr & Hmem).
    fold rx in Hi, Hm, Hptr, Hmem.
    rewrite length_replicate in Hi. rewrite length_replicate, Hc in Hptr.
    rewrite Hm, Hptr, Hmem, Hi.
    split; [reflexivity |]. split; [reflexivity |].
    split; [reflexivity |]. split.
    + pose proof (store_seq_inside (replicate calls M) (0, 0)
                    (scene_xforms (scenes (@vger_init Geom)))
                    (Z.to_nat 65536) M (Hn _ M)) as Hs.
      rewrite Z2Nat.id in Hs by lia. exact Hs.
    + rewrite list_lookup_fmap, lookup_seq_lt by (unfold calls; lia).
      simpl. rewrite Hlast. reflexivity.
  - destruct (addPaints_65536 Geom (replicate calls paint) vger_init
                eq_refl Hu) as (Hi & Hm & _ & Hptr & Hmem).
    fold rp in Hi, Hm, Hptr, Hmem.
    rewrite length_replicate in Hi. rewrite length_replicate, Hc in Hptr.
    rewrite Hm, Hptr, Hmem, Hi.
    split; [reflexivity |]. split; [reflexivity |].
    split; [reflexivity |]. split.
    + pose proof (store_seq_inside (replicate calls paint) (0, 0)
                    (scene_paints (scenes (@vger_init Geom)))
                    (Z.to_nat 65536) paint (Hn _ paint)) as Hs.
      rewrite Z2Nat.id in Hs by lia. exact Hs.
    + rewrite list_lookup_fmap, lookup_seq_lt by (unfold calls; lia).
      simpl. rewrite Hlast. reflexivity.
Qed.
End HandleClaims.

Lemma capacities_and_handle_bound_witness :
  let s0 := vger_with_caps 4 2 in
  let s4 := (addPaints (replicate 4 paint_sample)
               (addxforms (replicate 4 xform_sample) s0).2).2 in
  (xformCount s0 < maxPrims s0 /\ (addxform xform_sample s0).1 = 0) /\
  (maxPrims s4 <= xformCount s4 /\ addxform xform_sample s4 = (0, s4)) /\
  (paintCount s0 < maxPrims s0 /\ (addPaint paint_sample s0).1 = 0) /\
  (maxPrims s4 <= paintCount s4 /\ addPaint paint_sample s4 = (0, s4)).
Proof.
  intros s0 s4.
  destruct (capacities_and_handle_bound nat s0 xform_sample paint_sample)
    as (_ & _ & _ & Hx & _ & Hp & _).
  destruct (capacities_and_handle_bound nat s4 xform_sample paint_sample)
    as (_ & _ & _ & _ & Hxf & _ & Hpf).
  assert (H1 : xformCount s0 < maxPrims s0) by (vm_compute; reflexivity).
  assert (H2 : maxPrims s4 <= xformCount s4) by (vm_compute; discriminate).
  assert (H3 : paintCount s0 < maxPrims s0) by (vm_compute; reflexivity).
  assert (H4 : maxPrims s4 <= paintCount s4) by (vm_compute; discriminate).
  split; [split; [exact H1 | apply (Hx H1)] |].
  split; [split; [exact H2 | apply (Hxf H2)] |].
  split; [split; [exact H3 | apply (Hp H3)] |].
  split; [exact H4 | apply (Hpf H4)].
Defined.

Lemma handle_guard_always_true_witness :
  let s := @vger_init nat in
  let Ms := [xform_sample; xform_sample; xform_sample] in
  let ps := [paint_sample; paint_sample] in
  (maxPrims s = 65536 /\ is_uint16 (xformCount s) /\
   is_uint16 (paintCount s)) /\
  (addxforms Ms s).1 !! 2%nat = Some (2 mod 2 ^ 16) /\
  xformPtr (addxforms Ms s).2 = (0, 3) /\
  (addPaints ps s).1 !! 1%nat = Some (1 mod 2 ^ 16) /\
  paintPtr (addPaints ps s).2 = (0, 2).
Proof.
  intros s Ms ps.
  assert (H1 : maxPrims s = 65536) by reflexivity.
  assert (H2 : is_uint16 (xformCount s)) by (unfold is_uint16; simpl; lia).
  assert (H3 : is_uint16 (paintCount s)) by (unfold is_uint16; simpl; lia).
  destruct (handle_guard_always_true nat s H1 H2 H3)
    as (_ & _ & _ & Hx & Hp).
  destruct (Hx Ms 2%nat xform_sample eq_refl) as (_ & Hxp & Hxi).
  destruct (Hp ps 1%nat paint_sample eq_refl) as (_ & Hpp & Hpi).
  split; [split; [exact H1 | split; [exact H2 | exact H3]] |].
  split; [apply Hxi; reflexivity |].
  split; [exact Hxp |].
  split; [apply Hpi; reflexivity | exact Hpp].
Defined.

(* ===================================================================== *)
(** * The scene buffer rotation: advance *)
(* ===================================================================== *)

Section Rotation.
Variable Geom : Type.
Implicit Types s : vger Geom.

Lemma advance_curBuffer s :
  curBuffer (advance s) = (curBuffer s + 1) mod 3.
Proof. reflexivity. Qed.

Lemma advance_curBuffer_range s : 0 <= curBuffer (advance s) < 3.
Proof. rewrite advance_curBuffer. apply Z.mod_pos_bound. lia. Qed.

Lemma advance_reset s :
  let s' := advance s in
  primCount s' = 0 /\ cvCount s' = 0 /\
  xformCount s' = 0 /\ paintCount s' = 0 /\
  primPtr s' = (curBuffer s', 0) /\ cvPtr s' = (curBuffer s', 0) /\
  xformPtr s' = (curBuffer s', 0) /\ paintPtr s' = (curBuffer s', 0) /\
  scenes s' = scenes s.
Proof. simpl. repeat split. Qed.

Lemma advance_thrice_curBuffer s :
  0 <= curBuffer s < 3 ->
  curBuffer (advance (advance (advance s))) = curBuffer s.
Proof.
  intros H. rewrite !advance_curBuffer.
  assert (Hc : curBuffer s = 0 \/ curBuffer s = 1 \/ curBuffer s = 2) by lia.
  destruct Hc as [-> | [-> | ->]]; reflexivity.
Qed.

(** C6: there are three scene buffers and [advance] steps the current
    index modulo 3, so from each index 0, 1, 2 three calls come back to
    it; the four arenas of that buffer then have count zero, with their
    cursors at its start and the memory untouched. *)
Theorem advance_period_three s :
  0 <= curBuffer s < 3 ->
  let s3 := advance (advance (advance s)) in
  scenes_len = 3 /\
  curBuffer (advance s) = (curBuffer s + 1) mod 3 /\
  curBuffer (advance s) <> curBuffer s /\
  curBuffer (advance (advance s)) <> curBuffer s /\
  curBuffer s3 = curBuffer s /\
  primCount s3 = 0 /\ cvCount s3 = 0 /\
  xformCount s3 = 0 /\ paintCount s3 = 0 /\
  primPtr s3 = (curBuffer s, 0) /\ cvPtr s3 = (curBuffer s, 0) /\
  xformPtr s3 = (curBuffer s, 0) /\ paintPtr s3 = (curBuffer s, 0) /\
  scenes s3 = scenes s.
Proof.
  intros H s3.
  pose proof (advance_thrice_curBuffer s H) as H3. fold s3 in H3.
  destruct (advance_reset (advance (advance s)))
    as (Hp & Hc & Hx & Hpt & Hpp & Hcp & Hxp & Hptp & Hs).
  fold s3 in Hp, Hc, Hx, Hpt, Hpp, Hcp, Hxp, Hptp, Hs.
  rewrite H3 in Hpp, Hcp, Hxp, Hptp.
  split; [reflexivity |]. split; [reflexivity |].
  split; [| split].
  - rewrite advance_curBuffer.
    assert (Hc3 : curBuffer s = 0 \/ curBuffer s = 1 \/ curBuffer s = 2) by lia.
    destruct Hc3 as [-> | [-> | ->]]; discriminate.
  - rewrite !advance_curBuffer.
    assert (Hc3 : curBuffer s = 0 \/ curBuffer s = 1 \/ curBuffer s = 2) by lia.
    destruct Hc3 as [-> | [-> | ->]]; discriminate.
  - repeat (split; [assumption |]). exact Hs.
Qed.
End Rotation.

Lemma advance_period_three_witness :
  let s := (addxforms [xform_sample; xform_sample] (@vger_init nat)).2 in
  let s3 := advance (advance (advance s)) in
  0 <= curBuffer s < 3 /\ curBuffer s3 = curBuffer s /\ xformCount s3 = 0.
Proof.
  intros s s3.
  assert (H : 0 <= curBuffer s < 3)
    by (vm_compute; split; [discriminate | reflexivity]).
  destruct (advance_period_three nat s H)
    as (_ & _ & _ & _ & Hb & _ & _ & Hx & _).
  split; [exact H |]. split; [exact Hb | exact Hx].
Defined.

(* ===================================================================== *)
(** * The primitive arena *)
(* ===================================================================== *)

Section Prims.
Variable Geom : Type.
Implicit Types s : vger Geom.
Implicit Types vs : list (vgerPrim Geom).

Lemma prims_room_cons_fit s v vs :
  primCount s < maxPrims s ->
  prims_room s (v :: vs) = S (prims_room (addPrim v s) vs).
Proof.
  intros H. unfold prims_room, addPrim.
  destruct (Z.ltb_spec (primCount s) (maxPrims s)); [| lia].
  cbn [primCount maxPrims length].
  replace (maxPrims s - primCount s)
    with (Z.succ (maxPrims s - (primCount s + 1))) by lia.
  rewrite Z2Nat.inj_succ by lia. lia.
Qed.

Lemma prims_room_full s vs :
  maxPrims s <= primCount s -> prims_room s vs = 0%nat.
Proof. intros H. unfold prims_room. lia. Qed.

(** The closed form of a run of [addPrim]: the prefix that fits is
    written from the cursor on, the rest is dropped. *)
Lemma addPrims_closed vs :
  forall s,
  addPrims vs s =
  {| scenes :=
       mk_vgerScenes
         (store_seq (primPtr s) (take (prims_room s vs) vs)
            (scene_prims (scenes s)))
         (scene_cvs (scenes s)) (scene_xforms (scenes s))
         (scene_paints (scenes s));
     curBuffer := curBuffer s;
     primPtr := cursor_add (primPtr s) (Z.of_nat (prims_room s vs));
     primCount := primCount s + Z.of_nat (prims_room s vs);
     maxPrims := maxPrims s;
     cvPtr := cvPtr s;
     cvCount := cvCount s;
     maxCvs := maxCvs s;
     xformCount := xformCount s;
     xformPtr := xformPtr s;
     paintCount := paintCount s;
     paintPtr := paintPtr s;
     textCache := textCache s;
     currentFrame := currentFrame s |}.
Proof.
  induction vs as [| v rest IH]; intros s.
  - unfold prims_room. simpl. rewrite cursor_add_0, Z.add_0_r.
    destruct s as [[? ? ? ?] ? ? ? ? ? ? ? ? ? ? ? ? ?]. reflexivity.
  - simpl. destruct (Z.lt_ge_cases (primCount s) (maxPrims s)) as [Hlt | Hge].
    + rewrite IH, (prims_room_cons_fit s v rest Hlt).
      set (n := prims_room (addPrim v s) rest).
      unfold addPrim.
      destruct (Z.ltb_spec (primCount s) (maxPrims s)); [| lia].
      simpl. rewrite cursor_add_next. f_equal; [f_equal; lia | lia].
    + assert (Hs : addPrim v s = s).
      { unfold addPrim.
        destruct (Z.ltb_spec (primCount s) (maxPrims s)); [lia | reflexivity]. }
      rewrite Hs, IH, !prims_room_full by assumption. reflexivity.
Qed.

Lemma addPrims_textCache vs s : textCache (addPrims vs s) = textCache s.
Proof. rewrite addPrims_closed. reflexivity. Qed.

Lemma addPrims_currentFrame vs s :
  currentFrame (addPrims vs s) = currentFrame s.
Proof. rewrite addPrims_closed. reflexivity. Qed.

Lemma addPrims_count_le vs s :
  primCount s <= maxPrims s -> primCount (addPrims vs s) <= maxPrims s.
Proof.
  intros H. rewrite addPrims_closed. simpl. unfold prims_room. lia.
Qed.
End Prims.

(* ===================================================================== *)
(** * The text layout cache *)
(* ===================================================================== *)

Section Cache.
Variable Geom : Type.
Implicit Types s : vger Geom.
Implicit Types c : TextCache Geom.
Implicit Types info : TextLayoutInfo Geom.

Lemma cache_find_present key c :
  is_Some (cache_find key c) <-> present key c.
Proof.
  induction c as [| [k info] rest IH]; simpl.
  - split; [intros [? ?]; discriminate |].
    intros (k & info & Hin & _). apply elem_of_nil in Hin. contradiction.
  - destruct (TextLayoutKey_eqb k key) eqn:Hk.
    + split; [| eauto]. intros _. exists k, info.
      split; [apply elem_of_cons; auto | exact Hk].
    + rewrite IH. split.
      * intros (k' & info' & Hin & Hk'). exists k', info'.
        split; [apply elem_of_cons; auto | exact Hk'].
      * intros (k' & info' & Hin & Hk'). apply elem_of_cons in Hin.
        destruct Hin as [Heq | Hin]; [congruence |].
        exists k', info'. auto.
Qed.

Lemma cache_find_None key c :
  cache_find key c = None <->
  forall k info, (k, info) ∈ c -> TextLayoutKey_eqb k key = false.
Proof.
  rewrite eq_None_not_Some, cache_find_present. unfold present. split.
  - intros H k info Hin.
    destruct (TextLayoutKey_eqb k key) eqn:Hk; [| reflexivity].
    exfalso. apply H. eauto.
  - intros H (k & info & Hin & Hk). rewrite (H k info Hin) in Hk. discriminate.
Qed.

Lemma cache_find_stamp_same key frame_ c info :
  cache_find key c = Some info ->
  cache_find key (cache_stamp key frame_ c) =
  Some (mk_TextLayoutInfo frame_ (prims info)).
Proof.
  induction c as [| [k i] rest IH]; simpl; [discriminate |].
  destruct (TextLayoutKey_eqb k key) eqn:Hk; simpl; rewrite Hk.
  - intros [= ->]. reflexivity.
  - exact IH.
Qed.

Lemma cache_find_stamp_other key key' frame_ c :
  TextLayoutKey_eqb key key' = false ->
  cache_find key' (cache_stamp key frame_ c) = cache_find key' c.
Proof.
  intros Hne. induction c as [| [k i] rest IH]; simpl; [reflexivity |].
  destruct (TextLayoutKey_eqb k key) eqn:Hk; simpl.
  - rewrite (TextLayoutKey_eqb_trans_l _ _ key' Hk), Hne. reflexivity.
  - destruct (TextLayoutKey_eqb k key'); [reflexivity | exact IH].
Qed.

Lemma cache_stamp_miss key frame_ c :
  cache_find key c = None -> cache_stamp key frame_ c = c.
Proof.
  induction c as [| [k i] rest IH]; simpl; [reflexivity |].
  destruct (TextLayoutKey_eqb k key); [discriminate |].
  intros H. rewrite (IH H). reflexivity.
Qed.
End Cache.

Section CachedText.
Variable Geom : Type.
Implicit Types s : vger Geom.
Implicit Types info : TextLayoutInfo Geom.

Lemma renderCachedText_miss key paint xform s :
  cache_find key (textCache s) = None ->
  renderCachedText key paint xform s = (false, s).
Proof. intros H. unfold renderCachedText. rewrite H. reflexivity. Qed.

Lemma renderCachedText_hit key paint xform s info :
  cache_find key (textCache s) = Some info ->
  renderCachedText key paint xform s =
  (true,
   addPrims (map (rebind paint xform) (prims info))
     (set_textCache (cache_stamp key (currentFrame s) (textCache s)) s)).
Proof. intros H. unfold renderCachedText. rewrite H. reflexivity. Qed.

(** C3, as the model has it: [renderCachedText] returns true exactly when
    some entry's key is [==] to the key, which for a key [==] to itself
    includes every entry stored under that very key. On a miss the state
    is unchanged. On a hit the entry is stamped with [currentFrame] and
    keeps its prims, other keys' lookups are as before, and the cached
    prims, with their paint and transform handles set to the caller's, are
    written from the prim cursor on, in the scene buffer the cursor points
    into (the current one, where [advance] put it), as far as the arena
    has room: all of them when [primCount + length <= maxPrims], else the
    prefix that fits, and none, the scene buffers left as they were, when
    the arena is full. *)
Theorem renderCachedText_spec key (paint xform : Z) s :
  let r := renderCachedText key paint xform s in
  (r.1 = true <-> present key (textCache s)) /\
  (r.1 = false -> r.2 = s) /\
  (forall info,
     cache_find key (textCache s) = Some info ->
     let vs := map (rebind paint xform) (prims info) in
     let n := prims_room s vs in
     r.1 = true /\
     cache_find key (textCache r.2) =
       Some (mk_TextLayoutInfo (currentFrame s) (prims info)) /\
     (forall key', TextLayoutKey_eqb key key' = false ->
        cache_find key' (textCache r.2) = cache_find key' (textCache s)) /\
     currentFrame r.2 = currentFrame s /\
     primCount r.2 = primCount s + Z.of_nat n /\
     primPtr r.2 = cursor_add (primPtr s) (Z.of_nat n) /\
     (forall (i : nat) v,
        (i < n)%nat -> prims info !! i = Some v ->
        scene_prims (scenes r.2) !! cursor_add (primPtr s) (Z.of_nat i) =
        Some (mk_vgerPrim (prim_geom v) paint xform)) /\
     (forall q,
        (forall i : nat, (i < n)%nat ->
           q <> cursor_add (primPtr s) (Z.of_nat i)) ->
        scene_prims (scenes r.2) !! q = scene_prims (scenes s) !! q) /\
     (primCount s + Z.of_nat (length (prims info)) <= maxPrims s ->
        n = length (prims info)) /\
     scene_cvs (scenes r.2) = scene_cvs (scenes s) /\
     scene_xforms (scenes r.2) = scene_xforms (scenes s) /\
     scene_paints (scenes r.2) = scene_paints (scenes s) /\
     curBuffer r.2 = curBuffer s) /\
  (TextLayoutKey_eqb key key = true ->
   (exists info, (key, info) ∈ textCache s) -> r.1 = true) /\
  (forall info,
     cache_find key (textCache s) = Some info ->
     maxPrims s <= primCount s ->
     r.1 = true /\ scenes r.2 = scenes s /\
     primCount r.2 = primCount s /\ primPtr r.2 = primPtr s).
Proof.
  intros r. subst r. split; [| split; [| split; [| split]]].
  - rewrite <- cache_find_present. unfold renderCachedText.
    destruct (cache_find key (textCache s)) as [info |]; simpl.
    + split; eauto.
    + split; [discriminate | intros [? ?]; discriminate].
  - unfold renderCachedText.
    destruct (cache_find key (textCache s)); simpl;
      [discriminate | reflexivity].
  - intros info Hfind vs n.
    rewrite (renderCachedText_hit key paint xform s info Hfind).
    fold vs. cbn [fst snd]. rewrite addPrims_closed. cbn.
    change (prims_room (set_textCache _ s) vs) with n.
    split; [reflexivity |].
    split; [apply cache_find_stamp_same, Hfind |].
    split; [intros key' Hne; apply cache_find_stamp_other, Hne |].
    split; [reflexivity |]. split; [reflexivity |]. split; [reflexivity |].
    split; [| split; [| split]].
    + intros i v Hi Hv.
      apply store_seq_inside. rewrite lookup_take_lt by exact Hi.
      unfold vs. rewrite list_lookup_fmap, Hv. reflexivity.
    + intros q Hq. apply store_seq_outside.
      intros i Hi. apply Hq. rewrite length_take in Hi. lia.
    + intros Hfit. unfold n, prims_room, vs. rewrite length_map. lia.
    + repeat split.
  - intros Hself [info Hin].
    destruct (cache_find key (textCache s)) as [info' |] eqn:Hfind.
    + rewrite (renderCachedText_hit key paint xform s info' Hfind).
      reflexivity.
    + exfalso. rewrite cache_find_None in Hfind.
      rewrite (Hfind key info Hin) in Hself. discriminate.
  - intros info Hfind Hfull.
    rewrite (renderCachedText_hit key paint xform s info Hfind).
    cbn [fst snd]. rewrite addPrims_closed, prims_room_full by exact Hfull.
    cbn. rewrite cursor_add_0, Z.add_0_r.
    destruct (scenes s). repeat split.
Qed.
End CachedText.

(* ===================================================================== *)
(** * Frames: stamping and pruning *)
(* ===================================================================== *)

Lemma wrap64_succ_ne (f : Z) : is_uint64 f -> wrap64 (f + 1) <> f.
Proof.
  unfold is_uint64, wrap64. intros H.
  destruct (Z.eq_dec f (2 ^ 64 - 1)) as [-> | Hne].
  - vm_compute. discriminate.
  - rewrite Z.mod_small by lia. lia.
Qed.

Lemma wrap64_range (z : Z) : is_uint64 (wrap64 z).
Proof. unfold is_uint64, wrap64. apply Z.mod_pos_bound. lia. Qed.

Section Frames.
Variable Geom : Type.
Variable shape : TextLayoutKey -> list Geom.
Implicit Types s : vger Geom.
Implicit Types c : TextCache Geom.
Implicit Types info : TextLayoutInfo Geom.
Implicit Types ds : list draw.

(** ** Entries of a stamped cache *)

Lemma cache_stamp_elem key f c k info :
  (k, info) ∈ cache_stamp key f c ->
  (k, info) ∈ c \/ (TextLayoutKey_eqb k key = true /\ lastFrame info = f).
Proof.
  induction c as [| [k0 i0] rest IH]; simpl; [auto |].
  destruct (TextLayoutKey_eqb k0 key) eqn:Hk; rewrite !elem_of_cons.
  - intros [[= -> ->] | Hin]; [right; auto | left; auto].
  - intros [Heq | Hin]; [left; auto |].
    destruct (IH Hin) as [? | ?]; auto.
Qed.

Lemma cache_stamp_keep key f c k info :
  (k, info) ∈ c ->
  exists info', (k, info') ∈ cache_stamp key f c /\
                (info' = info \/ lastFrame info' = f).
Proof.
  induction c as [| [k0 i0] rest IH]; simpl.
  - intros H. apply elem_of_nil in H. contradiction.
  - rewrite elem_of_cons. intros [[= -> ->] | Hin].
    + destruct (TextLayoutKey_eqb k0 key).
      * eexists. split; [apply elem_of_cons; left; reflexivity |].
        right. reflexivity.
      * exists i0. split; [apply elem_of_cons; auto | auto].
    + destruct (TextLayoutKey_eqb k0 key).
      * exists info. split; [apply elem_of_cons; auto | auto].
      * destruct (IH Hin) as (info' & Hin' & Hl).
        exists info'. split; [apply elem_of_cons; auto | exact Hl].
Qed.

Lemma cache_stamp_hit key f c info :
  cache_find key c = Some info ->
  exists k, (k, mk_TextLayoutInfo f (prims info)) ∈ cache_stamp key f c /\
            TextLayoutKey_eqb k key = true.
Proof.
  induction c as [| [k0 i0] rest IH]; simpl; [discriminate |].
  destruct (TextLayoutKey_eqb k0 key) eqn:Hk.
  - intros [= ->]. exists k0.
    split; [apply elem_of_cons; auto | exact Hk].
  - intros H. destruct (IH H) as (k & Hin & Hk').
    exists k. split; [apply elem_of_cons; auto | exact Hk'].
Qed.

(** ** One draw call *)

Lemma renderText_currentFrame key paint xform s :
  currentFrame (renderText shape key paint xform s) = currentFrame s.
Proof.
  unfold renderText, renderCachedText.
  destruct (cache_find key (textCache s)); simpl;
    rewrite addPrims_currentFrame; reflexivity.
Qed.

Lemma renderText_textCache key paint xform s :
  textCache (renderText shape key paint xform s) =
  match cache_find key (textCache s) with
  | Some _ => cache_stamp key (currentFrame s) (textCache s)
  | None =>
      (key, mk_TextLayoutInfo (currentFrame s)
              (map (fun g => mk_vgerPrim g paint xform) (shape key)))
      :: textCache s
  end.
Proof.
  unfold renderText, renderCachedText.
  destruct (cache_find key (textCache s)); simpl.
  - rewrite addPrims_textCache. reflexivity.
  - rewrite addPrims_textCache, addPrims_currentFrame. reflexivity.
Qed.

Lemma renderText_fresh key' key paint xform s :
  TextLayoutKey_eqb key' key = true ->
  fresh_for key (renderText shape key' paint xform s).
Proof.
  intros Hk. unfold fresh_for.
  rewrite renderText_textCache, renderText_currentFrame.
  destruct (cache_find key' (textCache s)) as [info |] eqn:Hf.
  - destruct (cache_stamp_hit key' (currentFrame s) _ _ Hf) as (k & Hin & Hk').
    exists k, (mk_TextLayoutInfo (currentFrame s) (prims info)).
    split; [exact Hin |]. split; [| reflexivity].
    rewrite (TextLayoutKey_eqb_trans_r _ _ k Hk) in Hk'. exact Hk'.
  - eexists _, _. split; [apply elem_of_cons; left; reflexivity |].
    split; [exact Hk | reflexivity].
Qed.

Lemma renderText_fresh_keeps key' key paint xform s :
  fresh_for key s -> fresh_for key (renderText shape key' paint xform s).
Proof.
  intros (k & info & Hin & Hk & Hl). unfold fresh_for.
  rewrite renderText_textCache, renderText_currentFrame.
  destruct (cache_find key' (textCache s)).
  - destruct (cache_stamp_keep key' (currentFrame s) _ _ _ Hin)
      as (info' & Hin' & [-> | Hl']); exists k; eauto.
  - exists k, info. split; [apply elem_of_cons; auto | auto].
Qed.

Lemma renderText_stale_keeps key' key paint xform s :
  TextLayoutKey_eqb key' key = false ->
  stale_for key s -> stale_for key (renderText shape key' paint xform s).
Proof.
  intros Hne Hst k info. rewrite renderText_textCache, renderText_currentFrame.
  destruct (cache_find key' (textCache s)).
  - intros [Hin | [Hk' _]]%cache_stamp_elem Hk; [eauto |].
    rewrite (TextLayoutKey_eqb_trans_l _ _ key Hk'), Hne in Hk. discriminate.
  - intros [[= -> ->] | Hin]%elem_of_cons Hk; [congruence | eauto].
Qed.

(** ** The draw calls of a frame *)

Lemma renderTexts_currentFrame ds :
  forall s, currentFrame (renderTexts shape ds s) = currentFrame s.
Proof.
  induction ds as [| [[key paint] xform] rest IH]; intros s; simpl;
    [reflexivity |].
  rewrite IH. apply renderText_currentFrame.
Qed.

Lemma renderTexts_fresh_keeps key ds :
  forall s, fresh_for key s -> fresh_for key (renderTexts shape ds s).
Proof.
  induction ds as [| [[key' paint] xform] rest IH]; intros s H; simpl;
    [exact H |].
  apply IH, renderText_fresh_keeps, H.
Qed.

Lemma renderTexts_fresh key ds :
  forall s, rendered key ds = true -> fresh_for key (renderTexts shape ds s).
Proof.
  induction ds as [| [[key' paint] xform] rest IH]; intros s; simpl;
    [discriminate |].
  unfold draw_key. simpl. intros [Hk | Hr]%orb_true_iff.
  - apply renderTexts_fresh_keeps, renderText_fresh, Hk.
  - apply IH, Hr.
Qed.

Lemma renderTexts_stale key ds :
  forall s, rendered key ds = false -> stale_for key s ->
            stale_for key (renderTexts shape ds s).
Proof.
  induction ds as [| [[key' paint] xform] rest IH]; intros s; simpl;
    [auto |].
  unfold draw_key. simpl. intros [Hk Hr]%orb_false_iff Hst.
  apply IH; [exact Hr |]. apply renderText_stale_keeps; assumption.
Qed.

(** ** The prune pass and the end of a frame *)

Lemma prune_elem s (e : TextLayoutKey * TextLayoutInfo Geom) :
  e ∈ textCache (prune s) <->
  e ∈ textCache s /\ lastFrame e.2 = currentFrame s.
Proof. unfold prune. simpl. rewrite list_elem_of_filter. tauto. Qed.

Lemma prune_fresh key s :
  fresh_for key s -> present key (textCache (prune s)).
Proof.
  intros (k & info & Hin & Hk & Hl). exists k, info.
  split; [apply prune_elem; auto | exact Hk].
Qed.

Lemma prune_stale key s :
  stale_for key s -> cache_find key (textCache (prune s)) = None.
Proof.
  intros Hst. apply cache_find_None. intros k info [Hin Hl]%prune_elem.
  destruct (TextLayoutKey_eqb k key) eqn:Hk; [| reflexivity].
  exfalso. exact (Hst k info Hin Hk Hl).
Qed.

Lemma frame_textCache ds s :
  textCache (frame shape ds s) = textCache (prune (renderTexts shape ds s)).
Proof. reflexivity. Qed.

Lemma frame_currentFrame ds s :
  currentFrame (frame shape ds s) = wrap64 (currentFrame s + 1).
Proof.
  unfold frame, encode. simpl. rewrite renderTexts_currentFrame.
  reflexivity.
Qed.

Lemma cached_true key s :
  cached key s = true <-> present key (textCache s).
Proof.
  unfold cached. rewrite bool_decide_eq_true. apply cache_find_present.
Qed.

Lemma cached_false key s :
  cached key s = false <-> cache_find key (textCache s) = None.
Proof.
  unfold cached. rewrite bool_decide_eq_false. symmetry.
  apply eq_None_not_Some.
Qed.

(** A key drawn in a frame is in the cache when the frame ends. *)
Lemma frame_rendered_cached key ds s :
  rendered key ds = true -> cached key (frame shape ds s) = true.
Proof.
  intros H. apply cached_true. rewrite frame_textCache.
  apply prune_fresh, renderTexts_fresh, H.
Qed.

(** When a frame ends every entry carries the stamp of the frame that
    ended, which is not the stamp of the frame that begins. *)
Lemma frame_all_stale key ds s :
  is_uint64 (currentFrame s) -> stale_for key (frame shape ds s).
Proof.
  intros Hf k info. rewrite frame_textCache, frame_currentFrame.
  intros [_ Hl]%prune_elem _. simpl in Hl.
  rewrite renderTexts_currentFrame in Hl. rewrite Hl.
  intros Heq. symmetry in Heq. exact (wrap64_succ_ne _ Hf Heq).
Qed.

Lemma frame_not_rendered_absent key ds s :
  rendered key ds = false -> stale_for key s ->
  cached key (frame shape ds s) = false.
Proof.
  intros Hr Hst. apply cached_false. rewrite frame_textCache.
  apply prune_stale, renderTexts_stale; assumption.
Qed.

Lemma frames_snoc (fs : list (list draw)) ds :
  forall s, frames shape (fs ++ [ds]) s = frame shape ds (frames shape fs s).
Proof.
  induction fs as [| ds0 rest IH]; intros s; simpl; [reflexivity |].
  apply IH.
Qed.

(** Draw calls never remove an entry: a key that is in the cache stays in
    it over any draw. *)
Lemma renderText_cached_keeps key' key paint xform s :
  cached key s = true ->
  cached key (renderText shape key' paint xform s) = true.
Proof.
  rewrite !cached_true. intros (k & info & Hin & Hk). unfold present.
  rewrite renderText_textCache.
  destruct (cache_find key' (textCache s)).
  - destruct (cache_stamp_keep key' (currentFrame s) _ _ _ Hin)
      as (info' & Hin' & _). eauto.
  - exists k, info. split; [apply elem_of_cons; auto | exact Hk].
Qed.

Lemma renderTexts_cached_keeps key ds :
  forall s, cached key s = true -> cached key (renderTexts shape ds s) = true.
Proof.
  induction ds as [| [[key' paint] xform] rest IH]; intros s H; simpl;
    [exact H |].
  apply IH, renderText_cached_keeps, H.
Qed.

(** Once a key is drawn it is in the cache for the rest of the frame. *)
Lemma renderTexts_rendered_cached key ds s :
  rendered key ds = true -> cached key (renderTexts shape ds s) = true.
Proof.
  intros H. apply cached_true.
  destruct (renderTexts_fresh key ds s H) as (k & info & Hin & Hk & _).
  exists k, info. auto.
Qed.

(** A draw of a key that is [==] to itself renders it. *)
Lemma rendered_literal key ds :
  TextLayoutKey_eqb key key = true ->
  key ∈ map draw_key ds -> rendered key ds = true.
Proof.
  intros Hself Hin. unfold rendered. apply existsb_exists.
  apply list_elem_of_fmap in Hin as (d & -> & Hd).
  exists d. split; [apply list_elem_of_In, Hd | exact Hself].
Qed.

(** C2, as the model has it. The prune pass keeps exactly the entries
    stamped with the current frame and removes the others. Call a key
    rendered in a frame when a text draw of that frame has a key [==] to
    it (for a key [==] to itself, any draw of that very key), and present
    when [find] returns an entry. A key rendered in frame F is present
    after F's prune pass; if it is not rendered in frame F+1 it is absent
    after F+1's prune pass. Once rendered in a frame it is present for the
    rest of that frame, and over any run of frames that each render it, it
    is present from the end of the first on: at the end of every frame of
    the run and at every point of the draws that follow. *)
Theorem prune_law key s :
  is_uint64 (currentFrame s) ->
  (forall e : TextLayoutKey * TextLayoutInfo Geom,
     e ∈ textCache (prune s) <->
     e ∈ textCache s /\ lastFrame e.2 = currentFrame s) /\
  (exists rest, textCache s ≡ₚ textCache (prune s) ++ rest /\
     forall e, e ∈ rest -> lastFrame e.2 <> currentFrame s) /\
  (forall ds, TextLayoutKey_eqb key key = true ->
     key ∈ map draw_key ds -> rendered key ds = true) /\
  (forall ds1 ds2,
     rendered key ds1 = true -> rendered key ds2 = false ->
     cached key (frame shape ds1 s) = true /\
     cached key (frame shape ds2 (frame shape ds1 s)) = false) /\
  (forall ds, rendered key ds = true ->
     cached key (renderTexts shape ds s) = true) /\
  (forall (fs : list (list draw)) (n : nat) (ds : list draw),
     Forall (fun ds => rendered key ds = true) fs ->
     (0 < n <= length fs)%nat ->
     cached key (frames shape (take n fs) s) = true /\
     cached key (renderTexts shape ds (frames shape (take n fs) s)) = true).
Proof.
  intros Hf. split; [apply prune_elem |].
  split; [| split; [| split; [| split]]].
  - exists (filter (fun e : TextLayoutKey * TextLayoutInfo Geom =>
                      ~ lastFrame e.2 = currentFrame s) (textCache s)).
    split.
    + unfold prune. simpl. symmetry. apply filter_app_complement.
    + intros e [He _]%list_elem_of_filter. exact He.
  - intros ds. apply rendered_literal.
  - intros ds1 ds2 H1 H2. split.
    + apply frame_rendered_cached, H1.
    + apply frame_not_rendered_absent; [exact H2 |].
      apply frame_all_stale, Hf.
  - intros ds. apply renderTexts_rendered_cached.
  - intros fs n ds' Hall [Hn Hlen].
    destruct n as [| n]; [lia |].
    destruct (lookup_lt_is_Some_2 fs n) as [ds Hds]; [lia |].
    rewrite (take_S_r _ _ _ Hds), frames_snoc.
    assert (Hc : cached key (frame shape ds (frames shape (take n fs) s))
                 = true).
    { apply frame_rendered_cached.
      rewrite Forall_lookup in Hall. exact (Hall n ds Hds). }
    split; [exact Hc | apply renderTexts_cached_keeps, Hc].
Qed.
End Frames.

Lemma renderCachedText_spec_witness :
  let r := renderCachedText key_hello 7 8 vger_hello in
  let info := mk_TextLayoutInfo 1
                (map (fun g => mk_vgerPrim g 3 4) (seq 0 5)) in
  cache_find key_hello (textCache vger_hello) = Some info /\
  r.1 = true /\
  primCount r.2 = 10 /\
  scene_prims (scenes r.2) !! (0, 6) = Some (mk_vgerPrim 1%nat 7 8) /\
  (renderCachedText key_hello_wrap 7 8 vger_hello).1 = false /\
  (renderCachedText key_hello_wrap 7 8 vger_hello).2 = vger_hello.
Proof.
  intros r info.
  assert (Hfind : cache_find key_hello (textCache vger_hello) = Some info)
    by reflexivity.
  assert (Hmiss : (renderCachedText key_hello_wrap 7 8 vger_hello).1 = false)
    by reflexivity.
  destruct (renderCachedText_spec nat key_hello 7 8 vger_hello)
    as (_ & _ & Hhit & _).
  destruct (renderCachedText_spec nat key_hello_wrap 7 8 vger_hello)
    as (_ & Hsame & _).
  destruct (Hhit info Hfind) as (Ht & _ & _ & _ & Hc & _ & Hw & _).
  split; [exact Hfind |]. split; [exact Ht |].
  split; [exact Hc |].
  assert (H1 : (1 < prims_room vger_hello
                     (map (rebind 7 8) (prims info)))%nat)
    by (vm_compute; lia).
  split; [exact (Hw 1%nat (mk_vgerPrim 1%nat 3 4) H1 eq_refl) |].
  split; [exact Hmiss | exact (Hsame Hmiss)].
Defined.

Lemma prune_law_witness :
  let s := @vger_init nat in
  is_uint64 (currentFrame s) /\
  rendered key_hello [draw_hello] = true /\
  cached key_hello (frame shape_sample [draw_hello] s) = true /\
  cached key_hello
    (frame shape_sample [] (frame shape_sample [draw_hello] s)) = false /\
  cached key_hello
    (frames shape_sample [[draw_hello]; [draw_hello]] s) = true /\
  cached key_hello
    (renderTexts shape_sample [draw_pos0]
       (frames shape_sample [[draw_hello]; [draw_hello]] s)) = true.
Proof.
  intros s.
  assert (Hf : is_uint64 (currentFrame s)) by (unfold is_uint64; simpl; lia).
  destruct (prune_law nat shape_sample key_hello s Hf)
    as (_ & _ & Hlit & H12 & _ & Hrun).
  assert (Hr : rendered key_hello [draw_hello] = true).
  { apply Hlit; [reflexivity |]. apply list_elem_of_here. }
  destruct (H12 [draw_hello] [] Hr eq_refl) as [H1 H2].
  split; [exact Hf |]. split; [exact Hr |].
  split; [exact H1 |]. split; [exact H2 |].
  apply (Hrun [[draw_hello]; [draw_hello]] 2%nat [draw_pos0]).
  - repeat constructor; exact Hr.
  - simpl. lia.
Defined.

(** C2 as stated fails when drawing is taken literally. The key with a NaN
    size is drawn in frames 1 and 2 and [find] returns no entry for it
    after either, although an entry is stored under it; and the key with
    wrap width +0, drawn in frame 1 and not in frame 2, where the key with
    wrap width -0 is drawn instead, is still found after frame 2's prune
    pass. *)
Lemma prune_law_not_literal :
  let s1 := frame shape_sample [draw_nan] (@vger_init nat) in
  let s2 := frame shape_sample [draw_nan] s1 in
  let t2 := frame shape_sample [draw_neg0]
              (frame shape_sample [draw_pos0] (@vger_init nat)) in
  (key_nan ∈ map draw_key [draw_nan] /\
   (exists info, textCache s1 = [(key_nan, info)]) /\
   cached key_nan s1 = false /\ cached key_nan s2 = false) /\
  (key_pos0 ∈ map draw_key [draw_pos0] /\
   (key_pos0 ∉ map draw_key [draw_neg0]) /\
   cached key_pos0 t2 = true).
Proof.
  intros s1 s2 t2. split.
  - split; [apply list_elem_of_here |].
    split; [eexists; vm_compute; reflexivity |].
    split; vm_compute; reflexivity.
  - split; [apply list_elem_of_here |]. split; [| vm_compute; reflexivity].
    intros H. apply list_elem_of_singleton in H. discriminate.
Qed.

(** C3 as stated fails in two ways. With the primitive arena full the call
    finds "Hello", returns true and copies none of its five cached prims:
    the scene buffers, the count and the cursor are as before. And an
    entry stored under the key with a NaN size is in the cache while the
    call for that key returns false. *)
Lemma renderCachedText_not_unconditional :
  let r := renderCachedText key_hello 7 8 vger_hello_full in
  let rn := renderCachedText key_nan 7 8 vger_nan in
  ((exists info, cache_find key_hello (textCache vger_hello_full) = Some info
                 /\ length (prims info) = 5%nat) /\
   primCount vger_hello_full = maxPrims vger_hello_full /\
   r.1 = true /\ scenes r.2 = scenes vger_hello_full /\
   primCount r.2 = primCount vger_hello_full /\
   primPtr r.2 = primPtr vger_hello_full) /\
  ((exists info, textCache vger_nan = [(key_nan, info)]) /\
   rn.1 = false).
Proof.
  intros r rn. split.
  - split; [eexists; split; vm_compute; reflexivity |].
    repeat split; vm_compute; reflexivity.
  - split; [eexists; vm_compute; reflexivity | vm_compute; reflexivity].
Qed.

(** The scenario of the specification: "Hello" drawn in frames 1 and 2 and
    not in frame 3 is in the cache after frame 2 and gone after frame 3. *)
Example hello_three_frames :
  let s2 := frames shape_sample [[draw_hello]; [draw_hello]] vger_init in
  let s3 := frame shape_sample [] s2 in
  currentFrame s2 = 3 /\ cached key_hello s2 = true /\
  currentFrame s3 = 4 /\ cached key_hello s3 = false.
Proof. vm_compute. repeat split. Qed.

(** A key with a NaN field equals no key, itself included: [find] never
    returns an entry for it, whatever the cache holds and however often it
    is drawn. *)
Lemma nan_key_never_found (Geom : Type) (key : TextLayoutKey)
    (c : TextCache Geom) :
  TextLayoutKey_eqb key key = false -> cache_find key c = None.
Proof.
  intros Hnan. apply cache_find_None. intros k info _.
  destruct (TextLayoutKey_eqb k key) eqn:Hk; [| reflexivity].
  rewrite (TextLayoutKey_eqb_trans_l _ _ key Hk) in Hk. congruence.
Qed.

Example nan_key_drawn_twice :
  TextLayoutKey_eqb key_nan key_nan = false /\
  cached key_nan
    (renderText shape_sample key_nan 3 4
       (renderText shape_sample key_nan 3 4 vger_init)) = false.
Proof. vm_compute. split; reflexivity. Qed.

(* ===================================================================== *)
(** * Key equality, field by field *)
(* ===================================================================== *)

Section KeyEquality.
Variable Geom : Type.
Variable shape : TextLayoutKey -> list Geom.
Implicit Types s : vger Geom.

Lemma fresh_for_cached key s : fresh_for key s -> cached key s = true.
Proof.
  intros (k & info & Hin & Hk & _). apply cached_true. exists k, info. auto.
Qed.

(** C4, as the code has it: two keys are [==] exactly when their strings
    and alignments are identical and their sizes and wrap widths are
    equal as IEEE floats, that is neither is NaN and they are the same
    value or both zero. Keys whose wrap widths compare unequal, such as
    -1 and 100.0, are unequal, and once both are drawn each is found in
    the cache and no entry serves both. *)
Theorem TextLayoutKey_eq_ieee :
  (forall a b,
     TextLayoutKey_eqb a b = true <->
     str a = str b /\ float_same (size a) (size b) /\
     align a = align b /\
     float_same (breakRowWidth a) (breakRowWidth b)) /\
  (forall a b,
     float_eqb (breakRowWidth a) (breakRowWidth b) = false ->
     TextLayoutKey_eqb a b = false /\ TextLayoutKey_neqb a b = true) /\
  TextLayoutKey_eqb key_hello key_hello_wrap = false /\
  (forall a b (pa xa pb xb : Z) s,
     TextLayoutKey_eqb a a = true ->
     TextLayoutKey_eqb b b = true ->
     TextLayoutKey_eqb a b = false ->
     let s' := renderText shape b pb xb (renderText shape a pa xa s) in
     cached a s' = true /\ cached b s' = true /\
     forall k info,
       (k, info) ∈ textCache s' ->
       ~ (TextLayoutKey_eqb k a = true /\ TextLayoutKey_eqb k b = true)).
Proof.
  split; [| split; [| split]].
  - intros a b. rewrite TextLayoutKey_eqb_fields, !float_eqb_same.
    reflexivity.
  - intros a b Hw.
    assert (He : TextLayoutKey_eqb a b = false).
    { destruct (TextLayoutKey_eqb a b) eqn:He; [| reflexivity].
      apply TextLayoutKey_eqb_fields in He as (_ & _ & _ & He).
      congruence. }
    split; [exact He |].
    unfold TextLayoutKey_neqb. fold (TextLayoutKey_eqb a b).
    rewrite He. reflexivity.
  - reflexivity.
  - intros a b pa xa pb xb s Ha Hb Hab s'. repeat split.
    + apply fresh_for_cached. unfold s'.
      apply renderText_fresh_keeps, renderText_fresh, Ha.
    + apply fresh_for_cached. unfold s'. apply renderText_fresh, Hb.
    + intros k info _ [Hka Hkb].
      rewrite (TextLayoutKey_eqb_trans_l _ _ b Hka), Hab in Hkb.
      discriminate.
Qed.
End KeyEquality.

Lemma TextLayoutKey_eq_ieee_witness :
  let s' := renderText shape_sample key_hello_wrap 5 6 vger_hello in
  (TextLayoutKey_eqb key_hello key_hello = true /\
   TextLayoutKey_eqb key_hello_wrap key_hello_wrap = true /\
   TextLayoutKey_eqb key_hello key_hello_wrap = false) /\
  float_eqb (breakRowWidth key_hello) (breakRowWidth key_hello_wrap) = false /\
  TextLayoutKey_neqb key_hello key_hello_wrap = true /\
  cached key_hello s' = true /\ cached key_hello_wrap s' = true.
Proof.
  intros s'.
  destruct (TextLayoutKey_eq_ieee nat shape_sample) as (_ & Hne & _ & Hd).
  assert (Ha : TextLayoutKey_eqb key_hello key_hello = true) by reflexivity.
  assert (Hb : TextLayoutKey_eqb key_hello_wrap key_hello_wrap = true)
    by reflexivity.
  assert (Hab : TextLayoutKey_eqb key_hello key_hello_wrap = false)
    by reflexivity.
  assert (Hw : float_eqb (breakRowWidth key_hello)
                 (breakRowWidth key_hello_wrap) = false) by reflexivity.
  destruct (Hne key_hello key_hello_wrap Hw) as [_ Hneq].
  destruct (Hd key_hello key_hello_wrap 3 4 5 6 vger_init Ha Hb Hab)
    as (Hca & Hcb & _).
  split; [split; [exact Ha | split; [exact Hb | exact Hab]] |].
  split; [exact Hw |]. split; [exact Hneq |].
  split; [exact Hca | exact Hcb].
Defined.

(** C4 as stated fails in both directions: [key_nan] has all four fields
    identical to its own and is not [==] to itself; [key_pos0] and
    [key_neg0] are [==] although their wrap widths, +0 and -0, are not the
    same datum. *)
Lemma TextLayoutKey_eq_not_fieldwise :
  ~ (forall a b,
       str a = str b /\ size a = size b /\ align a = align b /\
       breakRowWidth a = breakRowWidth b ->
       TextLayoutKey_eqb a b = true) /\
  ~ (forall a b,
       TextLayoutKey_eqb a b = true ->
       str a = str b /\ size a = size b /\ align a = align b /\
       breakRowWidth a = breakRowWidth b).
Proof.
  split.
  - intros H. specialize (H key_nan key_nan (conj eq_refl (conj eq_refl
                            (conj eq_refl eq_refl)))).
    vm_compute in H. discriminate.
  - intros H. destruct (H key_pos0 key_neg0 eq_refl) as (_ & _ & _ & Hw).
    vm_compute in Hw. discriminate.
Qed.

(* ===================================================================== *)
(** * makeLinearGradient *)
(* ===================================================================== *)

Section GradientFacts.
Local Open Scope Q_scope.

Lemma float_to_Q_finite (f : float) :
  is_finite f = true <-> exists q, float_to_Q f = Some q.
Proof.
  destruct f; simpl; split; eauto; try discriminate;
    intros [q Hq]; discriminate.
Qed.

Lemma float_to_Q_nonzero (f : float) (q : Q) :
  float_to_Q f = Some q -> q == 0 -> is_zero f = true.
Proof.
  destruct f as [s | s | | s m e]; simpl; try discriminate; [reflexivity |].
  intros [= <-] H0. exfalso.
  apply Qmult_integral in H0 as [Hm | He].
  - destruct s; unfold Qeq in Hm; simpl in Hm; lia.
  - assert (Hpos : 0 < 2 ^ e) by (apply Qpower_0_lt; reflexivity).
    rewrite He in Hpos. exact (Qlt_irrefl 0 Hpos).
Qed.

Lemma float_to_Q_neg (f : float) (q : Q) :
  float_to_Q f = Some q ->
  exists q', float_to_Q (float_neg f) = Some q' /\ q' == - q.
Proof.
  destruct f as [s | s | | s m e]; simpl; try discriminate; intros [= <-].
  - exists 0. split; reflexivity.
  - eexists. split; [reflexivity |]. destruct s; simpl; ring.
Qed.

Lemma sum_squares_zero (a b : Q) : a * a + b * b == 0 -> a == 0 /\ b == 0.
Proof. intros H. split; nra. Qed.

(** The determinant of the matrix of [makeLinearGradient] is the squared
    norm of the direction. *)
Lemma frame_determinant (d start : float2) (qx qy sx sy : Q) :
  float_to_Q (simd.x d) = Some qx ->
  float_to_Q (simd.y d) = Some qy ->
  float_to_Q (simd.x start) = Some sx ->
  float_to_Q (simd.y start) = Some sy ->
  exists q,
    determinant
      (simd.mk_float3x3
         (simd.mk_float3 (simd.x d) (simd.y d) float_0)
         (simd.mk_float3 (float_neg (simd.y d)) (simd.x d) float_0)
         (simd.mk_float3 (simd.x start) (simd.y start) float_1))
    = Some q /\
    q == qx * qx + qy * qy.
Proof.
  intros Hx Hy Hsx Hsy.
  destruct (float_to_Q_neg _ _ Hy) as (ny & Hny & Hneg).
  unfold determinant, float3_to_Q. cbn [simd.col0 simd.col1 simd.col2
    simd.xyz_x simd.xyz_y simd.xyz_z].
  rewrite Hx, Hy, Hny, Hsx, Hsy. cbn [float_to_Q float_0 float_1 mbind
    option_bind]. eexists. split; [reflexivity |].
  unfold det3. rewrite Hneg.
  assert (H1 : inject_Z 8388608 * 2 ^ (-23) == 1) by reflexivity.
  rewrite H1. ring.
Qed.
End GradientFacts.

Lemma length_zero (dx dy : float) :
  is_zero dx = true -> is_zero dy = true ->
  float_ltb (simd.length (simd.mk_float2 dx dy)) float_1em4 = true.
Proof.
  destruct dx as [sx | | |], dy as [sy | | |]; try discriminate.
  intros _ _. destruct sx, sy; reflexivity.
Qed.

(** The difference of two floats that compare equal, the first finite, is a
    zero. *)
Lemma float_sub_eq_zero (a b : float) :
  is_finite a = true -> float_eqb a b = true ->
  is_zero (float_sub b a) = true.
Proof.
  intros Hfin (_ & _ & [<- | [Ha Hb]])%float_eqb_same.
  - destruct a as [s | | | s m e]; try discriminate.
    + destruct s; reflexivity.
    + unfold float_sub, SFsub. rewrite Z.sub_diag. reflexivity.
  - destruct a as [sa | | |], b as [sb | | |]; try discriminate.
    destruct sa, sb; reflexivity.
Qed.

Section GradientClaims.
Variable inverse : float3x3 -> float3x3.

(** C10, for the inputs it holds on: when the components of [start] and
    of [end - start] are finite, [makeLinearGradient] returns a paint with
    [image = -1] and the given colors whose [xform] is [inverse] of a
    matrix of real entries with determinant [d.x^2 + d.y^2 <> 0]; when
    [length(end - start) < 0.0001f], as when [start == end], the
    direction [d] is (0, 1), else it is [end - start]. *)
Theorem makeLinearGradient_finite (start end_ : float2)
    (innerColor_ outerColor_ : float4) :
  let d := simd.sub end_ start in
  let p := makeLinearGradient inverse start end_ innerColor_ outerColor_ in
  is_finite (simd.x start) = true -> is_finite (simd.y start) = true ->
  is_finite (simd.x d) = true -> is_finite (simd.y d) = true ->
  image p = -1 /\
  innerColor p = innerColor_ /\ outerColor p = outerColor_ /\
  paint_xform p = inverse (makeLinearGradient_frame start end_) /\
  nonsingular (makeLinearGradient_frame start end_) /\
  (float_ltb (simd.length d) float_1em4 = true ->
     makeLinearGradient_dir start end_ = simd.mk_float2 float_0 float_1) /\
  (float_ltb (simd.length d) float_1em4 = false ->
     makeLinearGradient_dir start end_ = d) /\
  (float_eqb (simd.x start) (simd.x end_) = true ->
   float_eqb (simd.y start) (simd.y end_) = true ->
     makeLinearGradient_dir start end_ = simd.mk_float2 float_0 float_1).
Proof.
  intros d p Hsx Hsy Hdx Hdy.
  assert (Hguard : float_ltb (simd.length d) float_1em4 = true ->
            makeLinearGradient_dir start end_ =
            simd.mk_float2 float_0 float_1).
  { intros H. unfold makeLinearGradient_dir. fold d. rewrite H. reflexivity. }
  repeat (split; [reflexivity |]).
  split; [| split; [exact Hguard | split]].
  - apply float_to_Q_finite in Hsx as [sx Hsx], Hsy as [sy Hsy].
    unfold nonsingular, makeLinearGradient_frame, makeLinearGradient_dir.
    fold d. destruct (float_ltb (simd.length d) float_1em4) eqn:Hlt.
    + destruct (frame_determinant (simd.mk_float2 float_0 float_1) start
                  _ _ sx sy eq_refl eq_refl Hsx Hsy) as (q & Hq & Hval).
      exists q. split; [exact Hq |]. rewrite Hval.
      intros H%sum_squares_zero. destruct H as [_ H].
      vm_compute in H. discriminate.
    + apply float_to_Q_finite in Hdx as [qx Hqx], Hdy as [qy Hqy].
      destruct (frame_determinant d start qx qy sx sy Hqx Hqy Hsx Hsy)
        as (q & Hq & Hval).
      exists q. split; [exact Hq |]. rewrite Hval.
      intros [Hx0 Hy0]%sum_squares_zero.
      pose proof (float_to_Q_nonzero _ _ Hqx Hx0) as Hzx.
      pose proof (float_to_Q_nonzero _ _ Hqy Hy0) as Hzy.
      pose proof (length_zero _ _ Hzx Hzy) as Hl.
      destruct d as [dx dy]. simpl in *. congruence.
  - intros H. unfold makeLinearGradient_dir. fold d. rewrite H. reflexivity.
  - intros Hex Hey. apply Hguard. unfold d, simd.sub.
    apply length_zero; apply float_sub_eq_zero; assumption.
Qed.
End GradientClaims.

Lemma makeLinearGradient_finite_witness :
  let start := simd.mk_float2 float_1 float_0 in
  let far := simd.mk_float2 float_100 float_1 in
  (is_finite (simd.x start) = true /\ is_finite (simd.y start) = true /\
   is_finite (simd.x (simd.sub far start)) = true /\
   is_finite (simd.y (simd.sub far start)) = true /\
   is_finite (simd.x (simd.sub start start)) = true /\
   is_finite (simd.y (simd.sub start start)) = true) /\
  nonsingular (makeLinearGradient_frame start far) /\
  makeLinearGradient_dir start far = simd.sub far start /\
  nonsingular (makeLinearGradient_frame start start) /\
  makeLinearGradient_dir start start = simd.mk_float2 float_0 float_1.
Proof.
  intros start far.
  destruct (makeLinearGradient_finite inverse_sample start far
              color_sample color_sample eq_refl eq_refl eq_refl eq_refl)
    as (_ & _ & _ & _ & Hn1 & _ & Hd1 & _).
  destruct (makeLinearGradient_finite inverse_sample start start
              color_sample color_sample eq_refl eq_refl eq_refl eq_refl)
    as (_ & _ & _ & _ & Hn2 & _ & _ & Hd2).
  split; [repeat split |].
  split; [exact Hn1 |]. split; [exact (Hd1 eq_refl) |].
  split; [exact Hn2 | exact (Hd2 eq_refl eq_refl)].
Defined.

(** C10 as stated fails on finite inputs: with [start = (-FLT_MAX, 0)] and
    [end = (FLT_MAX, 0)] the difference overflows to infinity, its length is
    not below 0.0001f, and the matrix handed to [inverse] has infinite
    entries: it is not a non-singular matrix of reals. *)
Lemma makeLinearGradient_overflow :
  let start := simd.mk_float2 (float_neg float_max) float_0 in
  let end_ := simd.mk_float2 float_max float_0 in
  (is_float (simd.x start) /\ is_float (simd.y start) /\
   is_float (simd.x end_) /\ is_float (simd.y end_)) /\
  (is_finite (simd.x start) = true /\ is_finite (simd.x end_) = true) /\
  makeLinearGradient_dir start end_ =
    simd.mk_float2 (S754_infinity false) float_0 /\
  determinant (makeLinearGradient_frame start end_) = None /\
  ~ nonsingular (makeLinearGradient_frame start end_).
Proof.
  intros start end_.
  split; [repeat split |]. split; [split; reflexivity |].
  split; [reflexivity |]. split; [reflexivity |].
  intros (q & Hq & _). vm_compute in Hq. discriminate.
Qed.

(* ===================================================================== *)
(** * Further properties of the key: equality *)
(* ===================================================================== *)

(** [operator==] is symmetric and transitive, a key [==] to some key is
    [==] to itself, and [operator!=] is its negation: on the keys that
    equal themselves it is an equivalence relation. *)
Theorem TextLayoutKey_eq_partial_equivalence (a b c : TextLayoutKey) :
  TextLayoutKey_eqb a b = TextLayoutKey_eqb b a /\
  (TextLayoutKey_eqb a b = true -> TextLayoutKey_eqb b c = true ->
   TextLayoutKey_eqb a c = true) /\
  (TextLayoutKey_eqb a b = true ->
   TextLayoutKey_eqb a a = true /\ TextLayoutKey_eqb b b = true) /\
  TextLayoutKey_neqb a b = negb (TextLayoutKey_eqb a b).
Proof.
  split; [apply TextLayoutKey_eqb_sym |]. split; [| split].
  - intros Hab Hbc. rewrite (TextLayoutKey_eqb_trans_l a b c Hab). exact Hbc.
  - intros Hab. split.
    + rewrite (TextLayoutKey_eqb_trans_r a b a Hab). exact Hab.
    + rewrite <- (TextLayoutKey_eqb_trans_l a b b Hab). exact Hab.
  - reflexivity.
Qed.

Lemma TextLayoutKey_eq_partial_equivalence_witness :
  (TextLayoutKey_eqb key_pos0 key_neg0 = true /\
   TextLayoutKey_eqb key_neg0 key_pos0 = true) /\
  TextLayoutKey_eqb key_pos0 key_pos0 = true /\
  TextLayoutKey_eqb key_neg0 key_neg0 = true.
Proof.
  destruct (TextLayoutKey_eq_partial_equivalence key_pos0 key_neg0 key_pos0)
    as (_ & Ht & Hr & _).
  assert (H1 : TextLayoutKey_eqb key_pos0 key_neg0 = true) by reflexivity.
  assert (H2 : TextLayoutKey_eqb key_neg0 key_pos0 = true) by reflexivity.
  split; [split; [exact H1 | exact H2] |].
  split; [exact (Ht H1 H2) | exact (proj2 (Hr H1))].
Defined.

(** A key is [==] to itself exactly when neither [size] nor
    [breakRowWidth] is NaN; a key with a NaN in either field is [==] to no
    key at all, on either side of the comparison. *)
Theorem TextLayoutKey_eq_self_iff_no_nan (a b : TextLayoutKey) :
  (TextLayoutKey_eqb a a = true <->
   is_nan (size a) = false /\ is_nan (breakRowWidth a) = false) /\
  (is_nan (size a) = true \/ is_nan (breakRowWidth a) = true ->
   TextLayoutKey_eqb a b = false /\ TextLayoutKey_eqb b a = false).
Proof.
  split; [apply TextLayoutKey_eqb_refl_iff |].
  intros Hnan.
  assert (Hab : TextLayoutKey_eqb a b = false).
  { destruct (TextLayoutKey_eqb a b) eqn:Hab; [| reflexivity].
    apply TextLayoutKey_eqb_fields in Hab as (_ & Hz & _ & Hw).
    apply float_eqb_same in Hz as (Hz & _), Hw as (Hw & _).
    destruct Hnan; congruence. }
  split; [exact Hab | rewrite TextLayoutKey_eqb_sym; exact Hab].
Qed.

Lemma TextLayoutKey_eq_self_iff_no_nan_witness :
  (is_nan (size key_nan) = true \/ is_nan (breakRowWidth key_nan) = true) /\
  TextLayoutKey_eqb key_nan key_hello = false /\
  TextLayoutKey_eqb key_hello key_nan = false.
Proof.
  assert (H : is_nan (size key_nan) = true \/
              is_nan (breakRowWidth key_nan) = true) by (left; reflexivity).
  split; [exact H |].
  exact (proj2 (TextLayoutKey_eq_self_iff_no_nan key_nan key_hello) H).
Defined.

(* ===================================================================== *)
(** * Further properties of the key: hash_combine *)
(* ===================================================================== *)

Lemma uint64_log2 (a : Z) : is_uint64 a -> Z.log2 a < 64.
Proof.
  unfold is_uint64. intros [H0 H1].
  destruct (Z.eq_dec a 0) as [-> | Hne]; [reflexivity |].
  apply Z.log2_lt_pow2; lia.
Qed.

Lemma lxor_uint64 (a b : Z) :
  is_uint64 a -> is_uint64 b -> is_uint64 (Z.lxor a b).
Proof.
  intros Ha Hb.
  assert (H0 : 0 <= Z.lxor a b)
    by (apply Z.lxor_nonneg; unfold is_uint64 in *; lia).
  split; [exact H0 |].
  destruct (Z.eq_dec (Z.lxor a b) 0) as [-> | Hne]; [reflexivity |].
  apply Z.log2_lt_pow2; [lia |].
  pose proof (Z.log2_lxor a b (proj1 Ha) (proj1 Hb)).
  pose proof (uint64_log2 a Ha). pose proof (uint64_log2 b Hb). lia.
Qed.

Lemma hash_combine_step_uint64 (seed h : Z) :
  is_uint64 seed -> is_uint64 (hash_combine_step seed h).
Proof.
  intros Hs. unfold hash_combine_step. apply lxor_uint64; [exact Hs |].
  apply wrap64_range.
Qed.

Lemma hash_combine_uint64 (hs : list Z) :
  forall seed, is_uint64 seed -> is_uint64 (hash_combine seed hs).
Proof.
  induction hs as [| h rest IH]; intros seed Hs; simpl; [exact Hs |].
  apply IH, hash_combine_step_uint64, Hs.
Qed.

Lemma lxor_cancel_l (a b c : Z) : Z.lxor a b = Z.lxor a c -> b = c.
Proof.
  intros H.
  rewrite <- (Z.lxor_0_l b), <- (Z.lxor_0_l c), <- (Z.lxor_nilpotent a),
    !Z.lxor_assoc, H. reflexivity.
Qed.

(** For a fixed seed the mixing step tells apart any two hashes that are
    [size_t] values. *)
Lemma hash_combine_step_inj (seed h1 h2 : Z) :
  is_uint64 h1 -> is_uint64 h2 ->
  hash_combine_step seed h1 = hash_combine_step seed h2 -> h1 = h2.
Proof.
  unfold hash_combine_step, wrap64, is_uint64. intros H1 H2 H%lxor_cancel_l.
  set (k := 0x9e3779b9 + (Z.shiftl seed 6) mod 2 ^ 64 + Z.shiftr seed 2) in *.
  replace (h1 + 0x9e3779b9 + (Z.shiftl seed 6) mod 2 ^ 64 + Z.shiftr seed 2)
    with (h1 + k) in H by (unfold k; lia).
  replace (h2 + 0x9e3779b9 + (Z.shiftl seed 6) mod 2 ^ 64 + Z.shiftr seed 2)
    with (h2 + k) in H by (unfold k; lia).
  assert (Hd : (h1 - h2) mod 2 ^ 64 = 0).
  { replace (h1 - h2) with ((h1 + k) - (h2 + k)) by lia.
    rewrite Zminus_mod, H, Z.sub_diag. reflexivity. }
  apply Z.mod_divide in Hd; [| lia]. destruct Hd as [q Hq].
  assert (q = 0) by nia. lia.
Qed.

(** The variadic recursion of [hash_combine] folds its arguments from left
    to right: combining one pack and then another from the resulting seed
    is combining both packs in one call. *)
Theorem hash_combine_app (seed : Z) (xs ys : list Z) :
  hash_combine seed (xs ++ ys) = hash_combine (hash_combine seed xs) ys.
Proof.
  revert seed. induction xs as [| x rest IH]; intros seed; simpl;
    [reflexivity | apply IH].
Qed.

Section HashFacts.
Variable hash_string : string -> Z.
Variable hash_float : float -> Z.
Variable hash_int : Z -> Z.

(** Whatever the field hashes are, [std::hash<TextLayoutKey>] yields a
    [size_t] value: the additions wrap and the xor stays within 64 bits. *)
Theorem TextLayoutKey_hash_is_size_t (t : TextLayoutKey) :
  is_uint64 (TextLayoutKey_hash hash_string hash_float hash_int t).
Proof.
  unfold TextLayoutKey_hash. apply hash_combine_uint64.
  unfold is_uint64. lia.
Qed.

(** Two keys that agree on [str], [size] and [align] and whose
    [breakRowWidth] hashes, both [size_t] values, differ have different
    hashes: the last mixing step loses nothing. *)
Theorem TextLayoutKey_hash_separates_wrap_width (a b : TextLayoutKey) :
  str a = str b -> size a = size b -> align a = align b ->
  is_uint64 (hash_float (breakRowWidth a)) ->
  is_uint64 (hash_float (breakRowWidth b)) ->
  hash_float (breakRowWidth a) <> hash_float (breakRowWidth b) ->
  TextLayoutKey_hash hash_string hash_float hash_int a <>
  TextLayoutKey_hash hash_string hash_float hash_int b.
Proof.
  intros Hs Hz Ha Hra Hrb Hne H. apply Hne.
  unfold TextLayoutKey_hash in H. cbn [hash_combine] in H.
  rewrite Hs, Hz, Ha in H.
  exact (hash_combine_step_inj _ _ _ Hra Hrb H).
Qed.
End HashFacts.

Lemma TextLayoutKey_hash_separates_wrap_width_witness :
  (is_uint64 (hash_float_sample (breakRowWidth key_hello)) /\
   is_uint64 (hash_float_sample (breakRowWidth key_hello_wrap)) /\
   hash_float_sample (breakRowWidth key_hello) <>
   hash_float_sample (breakRowWidth key_hello_wrap)) /\
  TextLayoutKey_hash hash_string_sample hash_float_sample hash_int_sample
    key_hello <>
  TextLayoutKey_hash hash_string_sample hash_float_sample hash_int_sample
    key_hello_wrap.
Proof.
  assert (H1 : is_uint64 (hash_float_sample (breakRowWidth key_hello)))
    by (vm_compute; split; [discriminate | reflexivity]).
  assert (H2 : is_uint64 (hash_float_sample (breakRowWidth key_hello_wrap)))
    by (vm_compute; split; [discriminate | reflexivity]).
  assert (H3 : hash_float_sample (breakRowWidth key_hello) <>
               hash_float_sample (breakRowWidth key_hello_wrap))
    by (vm_compute; discriminate).
  split; [split; [exact H1 | split; [exact H2 | exact H3]] |].
  exact (TextLayoutKey_hash_separates_wrap_width
           hash_string_sample hash_float_sample hash_int_sample
           key_hello key_hello_wrap eq_refl eq_refl eq_refl H1 H2 H3).
Defined.

(* ===================================================================== *)
(** * Further properties of the arenas *)
(* ===================================================================== *)

Section ArenaFacts.
Variable Geom : Type.
Implicit Types s : vger Geom.

Lemma cvs_room_cons_fit s (p : float2) (ps : list float2) :
  cvCount s < maxCvs s ->
  cvs_room s (p :: ps) = S (cvs_room (addCV p s) ps).
Proof.
  intros H. unfold cvs_room. rewrite addCV_write by exact H.
  cbn [cvCount maxCvs length].
  replace (maxCvs s - cvCount s)
    with (Z.succ (maxCvs s - (cvCount s + 1))) by lia.
  rewrite Z2Nat.inj_succ by lia. lia.
Qed.

Lemma cvs_room_full s (ps : list float2) :
  maxCvs s <= cvCount s -> cvs_room s ps = 0%nat.
Proof. intros H. unfold cvs_room. lia. Qed.

(** The closed form of a run of [addCV]: the points that fit are written
    from the cursor on, the others are dropped. *)
Lemma addCVs_closed (ps : list float2) :
  forall s,
  addCVs ps s =
  {| scenes :=
       mk_vgerScenes
         (scene_prims (scenes s))
         (store_seq (cvPtr s) (take (cvs_room s ps) ps)
            (scene_cvs (scenes s)))
         (scene_xforms (scenes s)) (scene_paints (scenes s));
     curBuffer := curBuffer s;
     primPtr := primPtr s;
     primCount := primCount s;
     maxPrims := maxPrims s;
     cvPtr := cursor_add (cvPtr s) (Z.of_nat (cvs_room s ps));
     cvCount := cvCount s + Z.of_nat (cvs_room s ps);
     maxCvs := maxCvs s;
     xformCount := xformCount s;
     xformPtr := xformPtr s;
     paintCount := paintCount s;
     paintPtr := paintPtr s;
     textCache := textCache s;
     currentFrame := currentFrame s |}.
Proof.
  induction ps as [| p rest IH]; intros s.
  - unfold cvs_room. simpl. rewrite cursor_add_0, Z.add_0_r.
    destruct s as [[? ? ? ?] ? ? ? ? ? ? ? ? ? ? ? ? ?]. reflexivity.
  - simpl. destruct (Z.lt_ge_cases (cvCount s) (maxCvs s)) as [Hlt | Hge].
    + rewrite IH, (cvs_room_cons_fit s p rest Hlt).
      set (n := cvs_room (addCV p s) rest).
      rewrite (addCV_write _ s p Hlt).
      simpl. rewrite cursor_add_next. f_equal; [f_equal; lia | lia].
    + rewrite (addCV_full _ s p Hge), IH, !cvs_room_full by assumption.
      reflexivity.
Qed.

(** From a state whose control-vertex cursor is in step with the count,
    any run of [addCV] keeps them in step and within [maxCvs], stays in the
    same scene, and writes only at offsets from the old count up to the
    capacity: entries below the old count, at or beyond [maxCvs], in other
    scenes and in the other arenas are as before. *)
Theorem addCVs_stay_in_arena (ps : list float2) s :
  0 <= cvCount s <= maxCvs s ->
  (cvPtr s).2 = cvCount s ->
  let s' := addCVs ps s in
  (cvPtr s').2 = cvCount s' /\
  0 <= cvCount s' <= maxCvs s' /\
  (cvPtr s').1 = (cvPtr s).1 /\
  (forall q : cursor,
     q.1 <> (cvPtr s).1 \/ q.2 < cvCount s \/ maxCvs s <= q.2 ->
     scene_cvs (scenes s') !! q = scene_cvs (scenes s) !! q) /\
  scene_prims (scenes s') = scene_prims (scenes s) /\
  scene_xforms (scenes s') = scene_xforms (scenes s) /\
  scene_paints (scenes s') = scene_paints (scenes s).
Proof.
  intros Hc Hstep s'. subst s'. rewrite addCVs_closed. cbn.
  assert (Hroom : Z.of_nat (cvs_room s ps) <= maxCvs s - cvCount s)
    by (unfold cvs_room; lia).
  split; [lia |]. split; [lia |]. split; [reflexivity |].
  split; [| repeat split].
  intros q Hq. apply store_seq_outside. intros i Hi.
  rewrite length_take in Hi. fold (cvs_room s ps) in Hi.
  assert (Hi' : (i < cvs_room s ps)%nat) by (unfold cvs_room in *; lia).
  intros ->. unfold cursor_add in Hq. cbn in Hq. lia.
Qed.

(** A run of [addCV] stores the points that fit in call order, one slot
    after the other from the cursor on, and drops the rest: the slots past
    the last point that fit are as before, and the count grows by the
    number of points that fit. *)
Theorem addCVs_stores_prefix (ps : list float2) s :
  let s' := addCVs ps s in
  (forall (i : nat) (p : float2),
     ps !! i = Some p -> cvCount s + Z.of_nat i < maxCvs s ->
     scene_cvs (scenes s') !! cursor_add (cvPtr s) (Z.of_nat i) = Some p) /\
  (forall i : nat,
     maxCvs s <= cvCount s + Z.of_nat i ->
     scene_cvs (scenes s') !! cursor_add (cvPtr s) (Z.of_nat i) =
     scene_cvs (scenes s) !! cursor_add (cvPtr s) (Z.of_nat i)) /\
  cvCount s' = cvCount s + Z.of_nat (cvs_room s ps) /\
  cvPtr s' = cursor_add (cvPtr s) (Z.of_nat (cvs_room s ps)).
Proof.
  intros s'. subst s'. rewrite addCVs_closed. cbn.
  split; [| split; [| split; reflexivity]].
  - intros i p Hi Hfit. apply store_seq_inside.
    rewrite lookup_take_lt; [exact Hi |].
    apply lookup_lt_Some in Hi. unfold cvs_room. lia.
  - intros i Hfull. apply store_seq_outside. intros j Hj Heq.
    apply cursor_add_inj in Heq. rewrite length_take in Hj.
    unfold cvs_room in Hj. lia.
Qed.

(** Writes to different arenas do not interfere: [addCV], [addxform] and
    [addPaint] can be called in either order, with the same returned
    indices and the same final state. *)
Theorem arena_calls_commute s (p : float2) (M : float3x3)
    (paint : vgerPaint) :
  addxform M (addCV p s) = ((addxform M s).1, addCV p (addxform M s).2) /\
  addPaint paint (addCV p s) =
    ((addPaint paint s).1, addCV p (addPaint paint s).2) /\
  (addPaint paint (addxform M s).2).1 = (addPaint paint s).1 /\
  (addxform M (addPaint paint s).2).1 = (addxform M s).1 /\
  (addPaint paint (addxform M s).2).2 = (addxform M (addPaint paint s).2).2.
Proof.
  unfold addxform, addPaint, addCV.
  destruct (cvCount s <? maxCvs s) eqn:Hc,
           (xformCount s <? maxPrims s) eqn:Hx,
           (paintCount s <? maxPrims s) eqn:Hp;
    cbn; rewrite ?Hc, ?Hx, ?Hp; cbn; repeat split.
Qed.

Lemma addCVs_wf (ps : list float2) :
  forall s, vger_wf s -> vger_wf (addCVs ps s).
Proof.
  induction ps as [| p rest IH]; intros s H; simpl; [exact H |].
  apply IH, addCV_wf, H.
Qed.

Lemma addxform_index_uint16 s (M : float3x3) :
  vger_wf s -> is_uint16 (addxform M s).1.
Proof.
  intros [? ? ? ? ? Hx ? ?]. unfold addxform.
  destruct (_ <? _); simpl; [exact Hx | unfold is_uint16; lia].
Qed.

Lemma addPaint_index_uint16 s (paint : vgerPaint) :
  vger_wf s -> is_uint16 (addPaint paint s).1.
Proof.
  intros [? ? ? ? ? ? Hp ?]. unfold addPaint.
  destruct (_ <? _); simpl; [exact Hp | unfold is_uint16; lia].
Qed.

Lemma addxforms_wf (Ms : list float3x3) :
  forall s, vger_wf s ->
  vger_wf (addxforms Ms s).2 /\ Forall is_uint16 (addxforms Ms s).1.
Proof.
  induction Ms as [| M rest IH]; intros s H; simpl; [split; [exact H | constructor] |].
  pose proof (addxform_wf _ s M H) as H1.
  pose proof (addxform_index_uint16 s M H) as Hi.
  destruct (addxform M s) as [i s1]. simpl in *.
  destruct (IH s1 H1) as [H2 Hf].
  destruct (addxforms rest s1) as [ixs s2]. simpl in *.
  split; [exact H2 | constructor; assumption].
Qed.

Lemma addPaints_wf (ps : list vgerPaint) :
  forall s, vger_wf s ->
  vger_wf (addPaints ps s).2 /\ Forall is_uint16 (addPaints ps s).1.
Proof.
  induction ps as [| p rest IH]; intros s H; simpl; [split; [exact H | constructor] |].
  pose proof (addPaint_wf _ s p H) as H1.
  pose proof (addPaint_index_uint16 s p H) as Hi.
  destruct (addPaint p s) as [i s1]. simpl in *.
  destruct (IH s1 H1) as [H2 Hf].
  destruct (addPaints rest s1) as [ixs s2]. simpl in *.
  split; [exact H2 | constructor; assumption].
Qed.

(** The counters never leave the ranges of their declared types: over any
    run of [addCV], [addxform] or [addPaint] the [int] counts stay [int]
    values (the increment of [cvCount] cannot overflow), the 16-bit counts
    stay 16-bit values, and every returned index is a [uint16_t] value. *)
Theorem arena_calls_keep_ranges s (ps : list float2) (Ms : list float3x3)
    (paints : list vgerPaint) :
  vger_wf s ->
  vger_wf (addCVs ps s) /\
  vger_wf (addxforms Ms s).2 /\ Forall is_uint16 (addxforms Ms s).1 /\
  vger_wf (addPaints paints s).2 /\ Forall is_uint16 (addPaints paints s).1.
Proof.
  intros H. split; [apply addCVs_wf, H |].
  destruct (addxforms_wf Ms s H) as [H1 H2].
  destruct (addPaints_wf paints s H) as [H3 H4]. auto.
Qed.

(** ** Handles *)

(** A run of [addxform] that fits both the capacity and the 16-bit
    counter: every call writes and returns the counter value. *)
Lemma addxforms_fit (Ms : list float3x3) :
  forall s,
  is_uint16 (xformCount s) ->
  xformCount s + Z.of_nat (length Ms) <= maxPrims s ->
  xformCount s + Z.of_nat (length Ms) <= 65536 ->
  let r := addxforms Ms s in
  r.1 = map (fun n => xformCount s + Z.of_nat n) (seq 0 (length Ms)) /\
  maxPrims r.2 = maxPrims s /\
  xformCount r.2 = wrap16 (xformCount s + Z.of_nat (length Ms)) /\
  xformPtr r.2 = cursor_add (xformPtr s) (Z.of_nat (length Ms)) /\
  scene_xforms (scenes r.2) =
    store_seq (xformPtr s) Ms (scene_xforms (scenes s)).
Proof.
  induction Ms as [| M rest IH]; intros s H0 Hcap H16.
  - simpl. rewrite Z.add_0_r, cursor_add_0, (wrap16_small _ H0). auto.
  - cbn [length] in Hcap, H16. cbn [addxforms].
    rewrite (addxform_write _ s M) by lia.
    match goal with |- context [addxforms rest ?t] => set (s1 := t) end.
    destruct rest as [| M' rest'].
    + cbn. rewrite Z.add_0_r. repeat split.
    + assert (Hw : wrap16 (xformCount s + 1) = xformCount s + 1)
        by (apply wrap16_small; unfold is_uint16 in *; cbn [length] in *; lia).
      assert (Hc1 : xformCount s1 = xformCount s + 1) by exact Hw.
      specialize (IH s1). rewrite Hc1 in IH. cbn [maxPrims s1] in IH.
      specialize (IH ltac:(unfold is_uint16 in *; cbn [length] in *; lia)
                     ltac:(cbn [length] in *; lia)
                     ltac:(cbn [length] in *; lia)).
      cbn zeta in IH. destruct (addxforms (M' :: rest') s1) as [ixs s2].
      cbn [fst snd] in *. destruct IH as (-> & -> & -> & -> & ->).
      cbn [length seq map]. repeat split.
      * f_equal; [lia |]. f_equal; [lia |].
        rewrite <- (seq_shift (length rest') 1), map_map.
        apply map_ext. intros n. lia.
      * f_equal. cbn [length]. lia.
      * unfold s1. cbn [xformPtr]. rewrite cursor_add_next. f_equal.
        cbn [length]. lia.
Qed.

Lemma xforms_room_cons_fit s (M : float3x3) (Ms : list float3x3) :
  xformCount s < maxPrims s -> maxPrims s <= 65535 -> 0 <= xformCount s ->
  xforms_room s (M :: Ms) = S (xforms_room (addxform M s).2 Ms).
Proof.
  intros H Hm H0. unfold xforms_room. rewrite addxform_write by exact H.
  cbn [snd xformCount maxPrims length].
  rewrite wrap16_small by (unfold is_uint16; lia).
  replace (maxPrims s - xformCount s)
    with (Z.succ (maxPrims s - (xformCount s + 1))) by lia.
  rewrite Z2Nat.inj_succ by lia. lia.
Qed.

(** A run of [addxform] against a capacity the 16-bit counter can reach:
    the transforms that fit are written, the others return 0. *)
Lemma addxforms_small (Ms : list float3x3) :
  forall s,
  maxPrims s <= 65535 -> 0 <= xformCount s <= maxPrims s ->
  let r := addxforms Ms s in
  r.1 = bounded_indices (xformCount s) (xforms_room s Ms) (length Ms) /\
  maxPrims r.2 = maxPrims s /\
  xformCount r.2 = xformCount s + Z.of_nat (xforms_room s Ms) /\
  xformPtr r.2 = cursor_add (xformPtr s) (Z.of_nat (xforms_room s Ms)) /\
  scene_xforms (scenes r.2) =
    store_seq (xformPtr s) (take (xforms_room s Ms) Ms)
      (scene_xforms (scenes s)).
Proof.
  induction Ms as [| M rest IH]; intros s Hm Hc.
  - unfold xforms_room, bounded_indices. simpl.
    rewrite Z.add_0_r, cursor_add_0. auto.
  - cbn [addxforms].
    destruct (Z.lt_ge_cases (xformCount s) (maxPrims s)) as [Hlt | Hge].
    + rewrite (xforms_room_cons_fit s M rest Hlt Hm (proj1 Hc)).
      assert (Hw : wrap16 (xformCount s + 1) = xformCount s + 1)
        by (apply wrap16_small; unfold is_uint16; lia).
      rewrite (addxform_write _ s M Hlt). cbn [snd].
      match goal with |- context [addxforms rest ?t] => set (s1 := t) end.
      assert (Hc1 : xformCount s1 = xformCount s + 1) by exact Hw.
      specialize (IH s1 Hm). rewrite Hc1 in IH. cbn [maxPrims s1] in IH.
      specialize (IH ltac:(lia)). cbn zeta in IH.
      set (n := xforms_room s1 rest) in *.
      destruct (addxforms rest s1) as [ixs s2].
      cbn [fst snd] in *. destruct IH as (-> & -> & -> & -> & ->).
      repeat split.
      * unfold bounded_indices. cbn [length seq map]. f_equal; [simpl; lia |].
        rewrite <- (seq_shift (length rest) 0), map_map.
        apply map_ext. intros k.
        destruct (Nat.ltb_spec k n) as [Hk | Hk];
          destruct (Nat.ltb_spec (S k) (S n)) as [Hk' | Hk']; lia.
      * lia.
      * unfold s1. cbn [xformPtr]. rewrite cursor_add_next. f_equal. lia.
    + assert (Hroom : forall l, xforms_room s l = 0%nat)
        by (intros l; unfold xforms_room; lia).
      rewrite (addxform_full _ s M Hge). specialize (IH s Hm Hc).
      cbn zeta in IH. rewrite !Hroom in *.
      destruct (addxforms rest s) as [ixs s2].
      cbn [fst snd] in *. destruct IH as (-> & -> & -> & -> & ->).
      repeat split. unfold bounded_indices. cbn [length seq map].
      f_equal. rewrite <- (seq_shift (length rest) 0), map_map.
      apply map_ext. intros k. reflexivity.
Qed.

(** A run of [addPaint] that fits both the capacity and the 16-bit
    counter: every call writes and returns the counter value. *)
Lemma addPaints_fit (Ms : list vgerPaint) :
  forall s,
  is_uint16 (paintCount s) ->
  paintCount s + Z.of_nat (length Ms) <= maxPrims s ->
  paintCount s + Z.of_nat (length Ms) <= 65536 ->
  let r := addPaints Ms s in
  r.1 = map (fun n => paintCount s + Z.of_nat n) (seq 0 (length Ms)) /\
  maxPrims r.2 = maxPrims s /\
  paintCount r.2 = wrap16 (paintCount s + Z.of_nat (length Ms)) /\
  paintPtr r.2 = cursor_add (paintPtr s) (Z.of_nat (length Ms)) /\
  scene_paints (scenes r.2) =
    store_seq (paintPtr s) Ms (scene_paints (scenes s)).
Proof.
  induction Ms as [| M rest IH]; intros s H0 Hcap H16.
  - simpl. rewrite Z.add_0_r, cursor_add_0, (wrap16_small _ H0). auto.
  - cbn [length] in Hcap, H16. cbn [addPaints].
    rewrite (addPaint_write _ s M) by lia.
    match goal with |- context [addPaints rest ?t] => set (s1 := t) end.
    destruct rest as [| M' rest'].
    + cbn. rewrite Z.add_0_r. repeat split.
    + assert (Hw : wrap16 (paintCount s + 1) = paintCount s + 1)
        by (apply wrap16_small; unfold is_uint16 in *; cbn [length] in *; lia).
      assert (Hc1 : paintCount s1 = paintCount s + 1) by exact Hw.
      specialize (IH s1). rewrite Hc1 in IH. cbn [maxPrims s1] in IH.
      specialize (IH ltac:(unfold is_uint16 in *; cbn [length] in *; lia)
                     ltac:(cbn [length] in *; lia)
                     ltac:(cbn [length] in *; lia)).
      cbn zeta in IH. destruct (addPaints (M' :: rest') s1) as [ixs s2].
      cbn [fst snd] in *. destruct IH as (-> & -> & -> & -> & ->).
      cbn [length seq map]. repeat split.
      * f_equal; [lia |]. f_equal; [lia |].
        rewrite <- (seq_shift (length rest') 1), map_map.
        apply map_ext. intros n. lia.
      * f_equal. cbn [length]. lia.
      * unfold s1. cbn [paintPtr]. rewrite cursor_add_next. f_equal.
        cbn [length]. lia.
Qed.

Lemma paints_room_cons_fit s (M : vgerPaint) (Ms : list vgerPaint) :
  paintCount s < maxPrims s -> maxPrims s <= 65535 -> 0 <= paintCount s ->
  paints_room s (M :: Ms) = S (paints_room (addPaint M s).2 Ms).
Proof.
  intros H Hm H0. unfold paints_room. rewrite addPaint_write by exact H.
  cbn [snd paintCount maxPrims length].
  rewrite wrap16_small by (unfold is_uint16; lia).
  replace (maxPrims s - paintCount s)
    with (Z.succ (maxPrims s - (paintCount s + 1))) by lia.
  rewrite Z2Nat.inj_succ by lia. lia.
Qed.

(** A run of [addPaint] against a capacity the 16-bit counter can reach:
    the paints that fit are written, the others return 0. *)
Lemma addPaints_small (Ms : list vgerPaint) :
  forall s,
  maxPrims s <= 65535 -> 0 <= paintCount s <= maxPrims s ->
  let r := addPaints Ms s in
  r.1 = bounded_indices (paintCount s) (paints_room s Ms) (length Ms) /\
  maxPrims r.2 = maxPrims s /\
  paintCount r.2 = paintCount s + Z.of_nat (paints_room s Ms) /\
  paintPtr r.2 = cursor_add (paintPtr s) (Z.of_nat (paints_room s Ms)) /\
  scene_paints (scenes r.2) =
    store_seq (paintPtr s) (take (paints_room s Ms) Ms)
      (scene_paints (scenes s)).
Proof.
  induction Ms as [| M rest IH]; intros s Hm Hc.
  - unfold paints_room, bounded_indices. simpl.
    rewrite Z.add_0_r, cursor_add_0. auto.
  - cbn [addPaints].
    destruct (Z.lt_ge_cases (paintCount s) (maxPrims s)) as [Hlt | Hge].
    + rewrite (paints_room_cons_fit s M rest Hlt Hm (proj1 Hc)).
      assert (Hw : wrap16 (paintCount s + 1) = paintCount s + 1)
        by (apply wrap16_small; unfold is_uint16; lia).
      rewrite (addPaint_write _ s M Hlt). cbn [snd].
      match goal with |- context [addPaints rest ?t] => set (s1 := t) end.
      assert (Hc1 : paintCount s1 = paintCount s + 1) by exact Hw.
      specialize (IH s1 Hm). rewrite Hc1 in IH. cbn [maxPrims s1] in IH.
      specialize (IH ltac:(lia)). cbn zeta in IH.
      set (n := paints_room s1 rest) in *.
      destruct (addPaints rest s1) as [ixs s2].
      cbn [fst snd] in *. destruct IH as (-> & -> & -> & -> & ->).
      repeat split.
      * unfold bounded_indices. cbn [length seq map]. f_equal; [simpl; lia |].
        rewrite <- (seq_shift (length rest) 0), map_map.
        apply map_ext. intros k.
        destruct (Nat.ltb_spec k n) as [Hk | Hk];
          destruct (Nat.ltb_spec (S k) (S n)) as [Hk' | Hk']; lia.
      * lia.
      * unfold s1. cbn [paintPtr]. rewrite cursor_add_next. f_equal. lia.
    + assert (Hroom : forall l, paints_room s l = 0%nat)
        by (intros l; unfold paints_room; lia).
      rewrite (addPaint_full _ s M Hge). specialize (IH s Hm Hc).
      cbn zeta in IH. rewrite !Hroom in *.
      destruct (addPaints rest s) as [ixs s2].
      cbn [fst snd] in *. destruct IH as (-> & -> & -> & -> & ->).
      repeat split. unfold bounded_indices. cbn [length seq map].
      f_equal. rewrite <- (seq_shift (length rest) 0), map_map.
      apply map_ext. intros k. reflexivity.
Qed.

(** While the transforms (paints) added since the cursor was in step with
    the counter fit the capacity and the 16-bit counter, every index
    returned is the slot of its item: reading the current scene's arena at
    the returned index gives back the transform (paint) that was added,
    also after the later calls of the run. *)
Theorem handles_index_their_items s (Ms : list float3x3)
    (ps : list vgerPaint) :
  (is_uint16 (xformCount s) -> (xformPtr s).2 = xformCount s ->
   xformCount s + Z.of_nat (length Ms) <= maxPrims s ->
   xformCount s + Z.of_nat (length Ms) <= 65536 ->
   forall (n : nat) (M : float3x3),
     Ms !! n = Some M ->
     exists i,
       (addxforms Ms s).1 !! n = Some i /\ is_uint16 i /\
       scene_xforms (scenes (addxforms Ms s).2) !! ((xformPtr s).1, i)
       = Some M) /\
  (is_uint16 (paintCount s) -> (paintPtr s).2 = paintCount s ->
   paintCount s + Z.of_nat (length ps) <= maxPrims s ->
   paintCount s + Z.of_nat (length ps) <= 65536 ->
   forall (n : nat) (p : vgerPaint),
     ps !! n = Some p ->
     exists i,
       (addPaints ps s).1 !! n = Some i /\ is_uint16 i /\
       scene_paints (scenes (addPaints ps s).2) !! ((paintPtr s).1, i)
       = Some p).
Proof.
  split.
  - intros Hu Hstep Hcap H16 n M Hn.
    destruct (addxforms_fit Ms s Hu Hcap H16) as (Hi & _ & _ & _ & Hmem).
    pose proof (lookup_lt_Some _ _ _ Hn) as Hlt.
    exists (xformCount s + Z.of_nat n). rewrite Hi, Hmem. split; [| split].
    + rewrite list_lookup_fmap, lookup_seq_lt by exact Hlt. reflexivity.
    + unfold is_uint16 in *. lia.
    + rewrite <- Hstep.
      change ((xformPtr s).1, (xformPtr s).2 + Z.of_nat n)
        with (cursor_add (xformPtr s) (Z.of_nat n)).
      apply store_seq_inside, Hn.
  - intros Hu Hstep Hcap H16 n p Hn.
    destruct (addPaints_fit ps s Hu Hcap H16) as (Hi & _ & _ & _ & Hmem).
    pose proof (lookup_lt_Some _ _ _ Hn) as Hlt.
    exists (paintCount s + Z.of_nat n). rewrite Hi, Hmem. split; [| split].
    + rewrite list_lookup_fmap, lookup_seq_lt by exact Hlt. reflexivity.
    + unfold is_uint16 in *. lia.
    + rewrite <- Hstep.
      change ((paintPtr s).1, (paintPtr s).2 + Z.of_nat n)
        with (cursor_add (paintPtr s) (Z.of_nat n)).
      apply store_seq_inside, Hn.
Qed.

(** With a capacity the 16-bit counters can reach ([maxPrims <= 65535])
    the guards of [addxform] and [addPaint] do bound the arenas: over any
    run of calls the count stays at most [maxPrims], the cursor advances
    only by the number of items that fit, the calls that fit return the
    successive counter values, and those that do not return 0 and write
    nothing. *)
Theorem handle_arenas_bounded_below_65536 s (Ms : list float3x3)
    (ps : list vgerPaint) :
  maxPrims s <= 65535 ->
  (0 <= xformCount s <= maxPrims s ->
   let r := addxforms Ms s in
   let room := xforms_room s Ms in
   xformCount r.2 = xformCount s + Z.of_nat room /\
   xformCount r.2 <= maxPrims r.2 /\
   xformPtr r.2 = cursor_add (xformPtr s) (Z.of_nat room) /\
   scene_xforms (scenes r.2) =
     store_seq (xformPtr s) (take room Ms) (scene_xforms (scenes s)) /\
   (forall n : nat, (n < room)%nat ->
      r.1 !! n = Some (xformCount s + Z.of_nat n)) /\
   (forall n : nat, (room <= n < length Ms)%nat -> r.1 !! n = Some 0)) /\
  (0 <= paintCount s <= maxPrims s ->
   let r := addPaints ps s in
   let room := paints_room s ps in
   paintCount r.2 = paintCount s + Z.of_nat room /\
   paintCount r.2 <= maxPrims r.2 /\
   paintPtr r.2 = cursor_add (paintPtr s) (Z.of_nat room) /\
   scene_paints (scenes r.2) =
     store_seq (paintPtr s) (take room ps) (scene_paints (scenes s)) /\
   (forall n : nat, (n < room)%nat ->
      r.1 !! n = Some (paintCount s + Z.of_nat n)) /\
   (forall n : nat, (room <= n < length ps)%nat -> r.1 !! n = Some 0)).
Proof.
  intros Hm. split.
  - intros Hc r room.
    destruct (addxforms_small Ms s Hm Hc) as (Hi & Hmax & Hcnt & Hptr & Hmem).
    fold r in Hi, Hmax, Hcnt, Hptr, Hmem. fold room in Hi, Hcnt, Hptr, Hmem.
    assert (Hroom : Z.of_nat room <= maxPrims s - xformCount s)
      by (unfold room, xforms_room; lia).
    assert (Hlen : (room <= length Ms)%nat)
      by (unfold room, xforms_room; lia).
    split; [exact Hcnt |]. split; [lia |]. split; [exact Hptr |].
    split; [exact Hmem |]. rewrite Hi. unfold bounded_indices. split.
    + intros n Hn. rewrite list_lookup_fmap, lookup_seq_lt by lia.
      cbn [fmap option_fmap option_map Nat.add].
      destruct (Nat.ltb_spec n room); [reflexivity | lia].
    + intros n Hn. rewrite list_lookup_fmap, lookup_seq_lt by lia.
      cbn [fmap option_fmap option_map Nat.add].
      destruct (Nat.ltb_spec n room); [lia | reflexivity].
  - intros Hc r room.
    destruct (addPaints_small ps s Hm Hc) as (Hi & Hmax & Hcnt & Hptr & Hmem).
    fold r in Hi, Hmax, Hcnt, Hptr, Hmem. fold room in Hi, Hcnt, Hptr, Hmem.
    assert (Hroom : Z.of_nat room <= maxPrims s - paintCount s)
      by (unfold room, paints_room; lia).
    assert (Hlen : (room <= length ps)%nat)
      by (unfold room, paints_room; lia).
    split; [exact Hcnt |]. split; [lia |]. split; [exact Hptr |].
    split; [exact Hmem |]. rewrite Hi. unfold bounded_indices. split.
    + intros n Hn. rewrite list_lookup_fmap, lookup_seq_lt by lia.
      cbn [fmap option_fmap option_map Nat.add].
      destruct (Nat.ltb_spec n room); [reflexivity | lia].
    + intros n Hn. rewrite list_lookup_fmap, lookup_seq_lt by lia.
      cbn [fmap option_fmap option_map Nat.add].
      destruct (Nat.ltb_spec n room); [lia | reflexivity].
Qed.

(** The sentinel is not a distinct value: when an arena that started empty
    is filled to a capacity of at most 65535 and one more item is added,
    the extra call returns 0, the index the first call returned, and slot 0
    holds the first item, not the extra one. *)
Theorem overflow_index_is_first_item s (M0 M' : float3x3)
    (Ms : list float3x3) (p0 p' : vgerPaint) (ps : list vgerPaint) :
  maxPrims s <= 65535 ->
  (xformCount s = 0 -> (xformPtr s).2 = 0 ->
   Z.of_nat (length (M0 :: Ms)) = maxPrims s ->
   let r := addxforms (M0 :: Ms ++ [M']) s in
   r.1 !! 0%nat = Some 0 /\
   r.1 !! length (M0 :: Ms) = Some 0 /\
   scene_xforms (scenes r.2) !! ((xformPtr s).1, 0) = Some M0 /\
   xformPtr r.2 = cursor_add (xformPtr s) (maxPrims s)) /\
  (paintCount s = 0 -> (paintPtr s).2 = 0 ->
   Z.of_nat (length (p0 :: ps)) = maxPrims s ->
   let r := addPaints (p0 :: ps ++ [p']) s in
   r.1 !! 0%nat = Some 0 /\
   r.1 !! length (p0 :: ps) = Some 0 /\
   scene_paints (scenes r.2) !! ((paintPtr s).1, 0) = Some p0 /\
   paintPtr r.2 = cursor_add (paintPtr s) (maxPrims s)).
Proof.
  intros Hm. split.
  - intros H0 Hoff Hlen r.
    destruct (addxforms_small (M0 :: Ms ++ [M']) s Hm ltac:(lia))
      as (Hi & _ & _ & Hptr & Hmem).
    fold r in Hi, Hptr, Hmem.
    assert (Hroom : xforms_room s (M0 :: Ms ++ [M']) = length (M0 :: Ms)).
    { unfold xforms_room. cbn [length] in *. rewrite length_app.
      cbn [length]. lia. }
    rewrite Hroom in Hi, Hptr, Hmem. rewrite Hi, Hptr, Hmem, H0.
    unfold bounded_indices. split; [| split; [| split]].
    + reflexivity.
    + rewrite list_lookup_fmap, lookup_seq_lt
        by (cbn [length]; rewrite length_app; cbn [length]; lia).
      cbn [fmap option_fmap option_map Nat.add].
      rewrite Nat.ltb_irrefl. reflexivity.
    + rewrite <- Hoff.
      replace ((xformPtr s).1, (xformPtr s).2)
        with (cursor_add (xformPtr s) (Z.of_nat 0))
        by (destruct (xformPtr s); unfold cursor_add; simpl; f_equal; lia).
      apply store_seq_inside. reflexivity.
    + f_equal. exact Hlen.
  - intros H0 Hoff Hlen r.
    destruct (addPaints_small (p0 :: ps ++ [p']) s Hm ltac:(lia))
      as (Hi & _ & _ & Hptr & Hmem).
    fold r in Hi, Hptr, Hmem.
    assert (Hroom : paints_room s (p0 :: ps ++ [p']) = length (p0 :: ps)).
    { unfold paints_room. cbn [length] in *. rewrite length_app.
      cbn [length]. lia. }
    rewrite Hroom in Hi, Hptr, Hmem. rewrite Hi, Hptr, Hmem, H0.
    unfold bounded_indices. split; [| split; [| split]].
    + reflexivity.
    + rewrite list_lookup_fmap, lookup_seq_lt
        by (cbn [length]; rewrite length_app; cbn [length]; lia).
      cbn [fmap option_fmap option_map Nat.add].
      rewrite Nat.ltb_irrefl. reflexivity.
    + rewrite <- Hoff.
      replace ((paintPtr s).1, (paintPtr s).2)
        with (cursor_add (paintPtr s) (Z.of_nat 0))
        by (destruct (paintPtr s); unfold cursor_add; simpl; f_equal; lia).
      apply store_seq_inside. reflexivity.
    + f_equal. exact Hlen.
Qed.
End ArenaFacts.

Lemma vger_with_caps_wf (prim_cap cv_cap : Z) :
  is_int prim_cap -> is_int cv_cap -> vger_wf (vger_with_caps prim_cap cv_cap).
Proof.
  intros Hp Hc. constructor; simpl; try assumption;
    unfold is_int, is_uint16, is_uint64; lia.
Qed.

Lemma addCVs_stay_in_arena_witness :
  let s := vger_with_caps 4 2 in
  let s' := addCVs [point_sample; point_sample; point_sample] s in
  (0 <= cvCount s <= maxCvs s /\ (cvPtr s).2 = cvCount s) /\
  (cvPtr s').2 = cvCount s' /\ cvCount s' <= 2 /\
  scene_cvs (scenes s') !! (0, 2) = None.
Proof.
  intros s s'.
  assert (H1 : 0 <= cvCount s <= maxCvs s) by (simpl; lia).
  assert (H2 : (cvPtr s).2 = cvCount s) by reflexivity.
  destruct (addCVs_stay_in_arena nat
              [point_sample; point_sample; point_sample] s H1 H2)
    as (Hs & Hc & _ & Hq & _).
  split; [split; [exact H1 | exact H2] |].
  split; [exact Hs |]. split; [exact (proj2 Hc) |].
  exact (Hq (0, 2) ltac:(right; right; simpl; lia)).
Defined.

Lemma addCVs_stores_prefix_witness :
  let s := vger_with_caps 4 2 in
  let far := simd.mk_float2 float_100 float_1 in
  let s' := addCVs [point_sample; far; far] s in
  (cvCount s + Z.of_nat 1 < maxCvs s /\ maxCvs s <= cvCount s + Z.of_nat 2) /\
  scene_cvs (scenes s') !! (0, 1) = Some far /\
  scene_cvs (scenes s') !! (0, 2) = None /\
  cvCount s' = 2.
Proof.
  intros s far s'.
  destruct (addCVs_stores_prefix nat [point_sample; far; far] s)
    as (Hin & Hout & Hc & _).
  assert (H1 : cvCount s + Z.of_nat 1 < maxCvs s) by (simpl; lia).
  assert (H2 : maxCvs s <= cvCount s + Z.of_nat 2) by (simpl; lia).
  split; [split; [exact H1 | exact H2] |].
  split; [exact (Hin 1%nat far eq_refl H1) |].
  split; [exact (Hout 2%nat H2) | exact Hc].
Defined.

Lemma arena_calls_keep_ranges_witness :
  let s := vger_with_caps 4 2 in
  vger_wf s /\
  vger_wf (addCVs [point_sample; point_sample; point_sample] s) /\
  Forall is_uint16 (addxforms [xform_sample; xform_sample] s).1.
Proof.
  intros s.
  assert (H : vger_wf s)
    by (apply vger_with_caps_wf; unfold is_int; lia).
  destruct (arena_calls_keep_ranges nat s
              [point_sample; point_sample; point_sample]
              [xform_sample; xform_sample] [] H) as (Hc & _ & Hx & _).
  split; [exact H |]. split; [exact Hc | exact Hx].
Defined.

Lemma handles_index_their_items_witness :
  let s := vger_with_caps 4 2 in
  let r := addxforms [xform_sample; xform_sample] s in
  (is_uint16 (xformCount s) /\ (xformPtr s).2 = xformCount s /\
   xformCount s + 2 <= maxPrims s) /\
  (exists i, r.1 !! 1%nat = Some i /\ is_uint16 i /\
             scene_xforms (scenes r.2) !! (0, i) = Some xform_sample) /\
  (exists i, (addPaints [paint_sample] s).1 !! 0%nat = Some i /\
             is_uint16 i /\
             scene_paints (scenes (addPaints [paint_sample] s).2) !! (0, i)
             = Some paint_sample).
Proof.
  intros s r.
  assert (Hu : is_uint16 0) by (unfold is_uint16; lia).
  destruct (handles_index_their_items nat s
              [xform_sample; xform_sample] [paint_sample]) as (Hx & Hp).
  split; [split; [exact Hu | split; [reflexivity | simpl; lia]] |].
  split.
  - exact (Hx Hu eq_refl ltac:(simpl; lia) ltac:(simpl; lia)
             1%nat xform_sample eq_refl).
  - exact (Hp Hu eq_refl ltac:(simpl; lia) ltac:(simpl; lia)
             0%nat paint_sample eq_refl).
Defined.

Lemma handle_arenas_bounded_below_65536_witness :
  let s := vger_with_caps 2 2 in
  let r := addxforms [xform_sample; xform_sample; xform_sample] s in
  (maxPrims s <= 65535 /\ 0 <= xformCount s <= maxPrims s /\
   0 <= paintCount s <= maxPrims s) /\
  xformCount r.2 <= maxPrims r.2 /\
  r.1 !! 1%nat = Some 1 /\ r.1 !! 2%nat = Some 0 /\
  paintCount (addPaints [paint_sample] s).2 <= 2.
Proof.
  intros s r.
  assert (Hm : maxPrims s <= 65535) by (simpl; lia).
  assert (Hc : 0 <= xformCount s <= maxPrims s) by (simpl; lia).
  assert (Hp : 0 <= paintCount s <= maxPrims s) by (simpl; lia).
  destruct (handle_arenas_bounded_below_65536 nat s
              [xform_sample; xform_sample; xform_sample] [paint_sample] Hm)
    as (Hx & Hpt).
  destruct (Hx Hc) as (_ & Hle & _ & _ & Hin & Hout).
  destruct (Hpt Hp) as (_ & Hple & _).
  split; [split; [exact Hm | split; [exact Hc | exact Hp]] |].
  split; [exact Hle |].
  split; [exact (Hin 1%nat ltac:(vm_compute; lia)) |].
  split; [exact (Hout 2%nat ltac:(vm_compute; lia)) | exact Hple].
Defined.

Lemma overflow_index_is_first_item_witness :
  let s := vger_with_caps 2 2 in
  let other := simd.mk_float3x3 (simd.mk_float3 float_100 float_0 float_0)
                 (simd.mk_float3 float_0 float_100 float_0)
                 (simd.mk_float3 float_0 float_0 float_1) in
  let r := addxforms [xform_sample; xform_sample; other] s in
  (maxPrims s <= 65535 /\ xformCount s = 0 /\ (xformPtr s).2 = 0 /\
   Z.of_nat (length [xform_sample; xform_sample]) = maxPrims s) /\
  r.1 !! 2%nat = Some 0 /\
  scene_xforms (scenes r.2) !! (0, 0) = Some xform_sample.
Proof.
  intros s other r.
  assert (Hm : maxPrims s <= 65535) by (simpl; lia).
  destruct (overflow_index_is_first_item nat s xform_sample other
              [xform_sample] paint_sample paint_sample [paint_sample] Hm)
    as (Hx & _).
  destruct (Hx eq_refl eq_refl eq_refl) as (_ & Hi & Hs & _).
  split; [split; [exact Hm | repeat split] |].
  split; [exact Hi | exact Hs].
Defined.

(* ===================================================================== *)
(** * Further properties of makeLinearGradient *)
(* ===================================================================== *)

Lemma float_sub_nan (a b : float) :
  is_nan a = true \/ is_nan b = true -> is_nan (float_sub b a) = true.
Proof.
  intros [H | H]; destruct a, b; try discriminate; reflexivity.
Qed.

Lemma length_nan (d : float2) :
  is_nan (simd.x d) = true \/ is_nan (simd.y d) = true ->
  float_ltb (simd.length d) float_1em4 = false.
Proof.
  destruct d as [dx dy]. unfold simd.length. cbn [simd.x simd.y].
  intros [H | H].
  - destruct dx; try discriminate. reflexivity.
  - destruct dy; try discriminate.
    assert (Hadd : float_add (float_mul dx dx) (float_mul S754_nan S754_nan)
                   = S754_nan).
    { change (float_mul S754_nan S754_nan) with S754_nan.
      destruct (float_mul dx dx); reflexivity. }
    rewrite Hadd. reflexivity.
Qed.

(** A NaN in any component of [start] or [end] passes the guard on the
    length: the direction stays [end - start], with a NaN in it, and the
    matrix handed to [inverse] is not a matrix of real numbers. *)
Theorem makeLinearGradient_nan (start end_ : float2) :
  is_nan (simd.x start) = true \/ is_nan (simd.y start) = true \/
  is_nan (simd.x end_) = true \/ is_nan (simd.y end_) = true ->
  makeLinearGradient_dir start end_ = simd.sub end_ start /\
  (is_nan (simd.x (makeLinearGradient_dir start end_)) = true \/
   is_nan (simd.y (makeLinearGradient_dir start end_)) = true) /\
  determinant (makeLinearGradient_frame start end_) = None /\
  ~ nonsingular (makeLinearGradient_frame start end_).
Proof.
  intros H.
  assert (Hd : is_nan (simd.x (simd.sub end_ start)) = true \/
               is_nan (simd.y (simd.sub end_ start)) = true).
  { unfold simd.sub. cbn [simd.x simd.y].
    destruct H as [H | [H | [H | H]]];
      [left | right | left | right]; apply float_sub_nan; auto. }
  assert (Hdir : makeLinearGradient_dir start end_ = simd.sub end_ start).
  { unfold makeLinearGradient_dir. rewrite (length_nan _ Hd). reflexivity. }
  assert (Hdet : determinant (makeLinearGradient_frame start end_) = None).
  { unfold makeLinearGradient_frame. rewrite Hdir.
    destruct (simd.sub end_ start) as [dx dy]. cbn [simd.x simd.y] in *.
    unfold determinant, float3_to_Q.
    cbn [simd.col0 simd.xyz_x simd.xyz_y simd.xyz_z].
    destruct Hd as [Hx | Hy].
    - destruct dx; try discriminate. reflexivity.
    - destruct dy; try discriminate. destruct (float_to_Q dx); reflexivity. }
  split; [exact Hdir |]. split; [rewrite Hdir; exact Hd |].
  split; [exact Hdet |].
  intros (q & Hq & _). rewrite Hdet in Hq. discriminate.
Qed.

Lemma makeLinearGradient_nan_witness :
  let start := simd.mk_float2 S754_nan float_0 in
  let end_ := simd.mk_float2 float_1 float_1 in
  is_nan (simd.x start) = true /\
  determinant (makeLinearGradient_frame start end_) = None.
Proof.
  intros start end_.
  assert (H : is_nan (simd.x start) = true) by reflexivity.
  destruct (makeLinearGradient_nan start end_ (or_introl H))
    as (_ & _ & Hdet & _).
  split; [exact H | exact Hdet].
Defined.

(** For finite [start] and finite [end - start] the determinant of the
    matrix handed to [inverse] is, exactly, the squared length
    [d.x^2 + d.y^2] of the direction after the guard; it is positive, and
    it is 1 when the guard replaced the direction by (0, 1). *)
Theorem makeLinearGradient_determinant (start end_ : float2) :
  let d := makeLinearGradient_dir start end_ in
  is_finite (simd.x start) = true -> is_finite (simd.y start) = true ->
  is_finite (simd.x (simd.sub end_ start)) = true ->
  is_finite (simd.y (simd.sub end_ start)) = true ->
  exists q qx qy : Q,
    determinant (makeLinearGradient_frame start end_) = Some q /\
    float_to_Q (simd.x d) = Some qx /\ float_to_Q (simd.y d) = Some qy /\
    (q == qx * qx + qy * qy)%Q /\ (0 < q)%Q /\
    (float_ltb (simd.length (simd.sub end_ start)) float_1em4 = true ->
     (q == 1)%Q).
Proof.
  intros d Hsx Hsy Hdx Hdy. subst d.
  apply float_to_Q_finite in Hsx as [sx Hsx], Hsy as [sy Hsy].
  unfold makeLinearGradient_frame, makeLinearGradient_dir.
  destruct (float_ltb (simd.length (simd.sub end_ start)) float_1em4) eqn:Hlt.
  - destruct (frame_determinant (simd.mk_float2 float_0 float_1) start
                _ _ sx sy eq_refl eq_refl Hsx Hsy) as (q & Hq & Hval).
    exists q. eexists. eexists.
    split; [exact Hq |]. split; [reflexivity |]. split; [reflexivity |].
    split; [exact Hval |].
    assert (H1 : (q == 1)%Q) by (rewrite Hval; reflexivity).
    split; [rewrite H1; reflexivity | intros _; exact H1].
  - apply float_to_Q_finite in Hdx as [qx Hqx], Hdy as [qy Hqy].
    destruct (frame_determinant (simd.sub end_ start) start qx qy sx sy
                Hqx Hqy Hsx Hsy) as (q & Hq & Hval).
    exists q, qx, qy.
    split; [exact Hq |]. split; [exact Hqx |]. split; [exact Hqy |].
    split; [exact Hval |]. split; [| discriminate].
    assert (Hnz : ~ (q == 0)%Q).
    { rewrite Hval. intros [Hx0 Hy0]%sum_squares_zero.
      pose proof (float_to_Q_nonzero _ _ Hqx Hx0) as Hzx.
      pose proof (float_to_Q_nonzero _ _ Hqy Hy0) as Hzy.
      pose proof (length_zero _ _ Hzx Hzy) as Hl.
      destruct (simd.sub end_ start) as [dx dy]. simpl in *. congruence. }
    rewrite Hval in *. nra.
Qed.

Lemma makeLinearGradient_determinant_witness :
  let start := simd.mk_float2 float_1 float_0 in
  (is_finite (simd.x start) = true /\ is_finite (simd.y start) = true /\
   is_finite (simd.x (simd.sub start start)) = true /\
   is_finite (simd.y (simd.sub start start)) = true) /\
  exists q : Q,
    determinant (makeLinearGradient_frame start start) = Some q /\
    (q == 1)%Q.
Proof.
  intros start.
  destruct (makeLinearGradient_determinant start start
              eq_refl eq_refl eq_refl eq_refl)
    as (q & qx & qy & Hq & _ & _ & _ & _ & H1).
  split; [repeat split |].
  exists q. split; [exact Hq | exact (H1 eq_refl)].
Defined.
